(** * Squirrel census explorer: loading, filtering and aggregation

    A shallow embedding of the data pipeline of [veverky.py]: the loader
    [load_data], the sidebar option lists, the filter block that builds
    [filtered_df], and the aggregates shown on the page.  The pandas
    operations the script calls are modelled column by column, as the script
    uses them: a frame is an index together with a finite map from column
    names to columns, a column is a list of cells. *)

From Stdlib Require Import Ascii.
From stdpp Require Import base option list list_monad gmap strings pretty.
From stdpp Require Import sorting.

(** ** Errors *)

(** The only exceptions the modelled code can raise: a missing column on
    [df[col]], and a sum over a column that is not numeric. *)
Inductive error :=
  | KeyError (col : string)
  | TypeError.

Inductive result (A : Type) :=
  | Ok (a : A)
  | Err (e : error).
Arguments Ok {A} a.
Arguments Err {A} e.

Global Instance error_eq_dec : EqDecision error.
Proof. solve_decision. Defined.

Global Instance result_eq_dec {A} `{EqDecision A} : EqDecision (result A).
Proof. solve_decision. Defined.

Global Instance result_ret : MRet result := λ A a, Ok a.
Global Instance result_bind : MBind result := λ A B f m,
  match m with
  | Ok a => f a
  | Err e => Err e
  end.

(** ** Numeric values

    The floating-point numbers of the numeric library are an interface of the
    model: the values, their text form [str(x)] and the library's numeric
    parser.  The parser answers [None] for a text that is not a number and
    for the text of the not-a-number value; both end as a missing value under
    [errors='coerce']. *)
Class FloatModel := {
  float : Type;
  float_eq_dec :: EqDecision float;
  float_str : float → string;
  float_parse : string → option float;
}.

(** ** Cells and columns *)

(** A value held by a column after [read_csv]: a missing value ([NaN]), a
    string, a boolean, an integer or a number.  A column read from a file is
    homogeneous apart from missing values, so structural equality of cells is
    the equality the library uses on one column. *)
Inductive cell `{FloatModel} :=
  | CNaN
  | CStr (s : string)
  | CBool (b : bool)
  | CInt (z : Z)
  | CFloat (f : float).

Global Instance cell_eq_dec `{FloatModel} : EqDecision cell.
Proof. solve_decision. Defined.

Abbreviation Series := (list cell).

(** ** Strings *)

Definition ascii_upper (a : ascii) : ascii :=
  let n := N_of_ascii a in
  if ((97 <=? n) && (n <=? 122))%N then ascii_of_N (n - 32) else a.

(** [s.upper()] on the ASCII letters; other bytes are kept.  Python also
    maps letters outside ASCII, none of them to a letter of ['TRUE'], so the
    comparison with ['TRUE'] is the same. *)
Fixpoint upper (s : string) : string :=
  match s with
  | EmptyString => EmptyString
  | String a s' => String (ascii_upper a) (upper s')
  end.

(** [s.replace(old, new)] for one-character [old] and [new]. *)
Fixpoint str_replace (old new : ascii) (s : string) : string :=
  match s with
  | EmptyString => EmptyString
  | String a s' =>
      String (if decide (a = old) then new else a) (str_replace old new s')
  end.

(** [str(x)] for a cell. *)
Definition str `{FloatModel} (x : cell) : string :=
  match x with
  | CNaN => "nan"
  | CStr s => s
  | CBool true => "True"
  | CBool false => "False"
  | CInt z => pretty z
  | CFloat f => float_str f
  end.

(** ** Column operations *)

Section series.
Context `{FloatModel}.

(** [s.astype(str)]: a column of strings. *)
Definition astype_str (s : Series) : list string := str <$> s.

(** [s.str.replace(old, new)] on a column of strings. *)
Definition series_str_replace (old new : ascii) (s : list string)
  : list string :=
  str_replace old new <$> s.

(** One value of [pd.to_numeric(s, errors='coerce')]. *)
Definition to_numeric_coerce1 (s : string) : cell :=
  match float_parse s with
  | Some f => CFloat f
  | None => CNaN
  end.

(** [pd.to_numeric(s, errors='coerce')] on a column of strings. *)
Definition to_numeric_coerce (s : list string) : Series :=
  to_numeric_coerce1 <$> s.

(** [s.apply(f)]. *)
Definition series_apply (f : cell → cell) (s : Series) : Series := f <$> s.

(** [s.dropna()]. *)
Definition dropna (s : Series) : Series :=
  filter (λ x, x ≠ CNaN) s.

(** [s.unique()]: the values in order of appearance; [seen] is the list of
    values met so far. *)
Fixpoint unique_from (seen : list cell) (s : Series) : Series :=
  match s with
  | [] => []
  | x :: s' =>
      if decide (x ∈ seen) then unique_from seen s'
      else x :: unique_from (x :: seen) s'
  end.

Definition unique (s : Series) : Series := unique_from [] s.

(** [s.isin(values)]: the boolean mask. *)
Definition isin (values : list cell) (s : Series) : list bool :=
  (λ x, bool_decide (x ∈ values)) <$> s.

(** [s == v] for a string [v]: the boolean mask. *)
Definition eq_str (v : string) (s : Series) : list bool :=
  (λ x, bool_decide (x = CStr v)) <$> s.

(** [s.sum()] on a column of booleans or integers, missing values
    skipped; any other column is outside the model. *)
Definition cell_num (x : cell) : result Z :=
  match x with
  | CBool b => Ok (if b then 1 else 0)%Z
  | CInt z => Ok z
  | CNaN => Ok 0%Z
  | _ => Err TypeError
  end.

Fixpoint series_sum (s : Series) : result Z :=
  match s with
  | [] => Ok 0%Z
  | x :: s' => n ← cell_num x; m ← series_sum s'; Ok (n + m)%Z
  end.
End series.

(** Rows kept by a boolean mask.  The masks of the script are computed from
    a column of the frame they select from, so they have one entry per row. *)
Fixpoint mask_select {A} (mask : list bool) (l : list A) : list A :=
  match mask, l with
  | b :: mask', x :: l' =>
      if b then x :: mask_select mask' l' else mask_select mask' l'
  | _, _ => []
  end.

(** ** Frames *)

Record DataFrame `{FloatModel} := {
  index : list nat;
  columns : gmap string Series;
}.

Global Instance dataframe_eq_dec `{FloatModel} : EqDecision DataFrame.
Proof. solve_decision. Defined.

Section frame.
Context `{FloatModel}.

(** Every column has one cell per row. *)
Definition wf (df : DataFrame) : Prop :=
  map_Forall (λ _ (s : Series), length s = length (index df)) (columns df).

(** [len(df)] *)
Definition len (df : DataFrame) : nat := length (index df).

(** [df[col]] *)
Definition getitem (df : DataFrame) (col : string) : result Series :=
  match columns df !! col with
  | Some s => Ok s
  | None => Err (KeyError col)
  end.

(** [df[col] = s] *)
Definition setitem (df : DataFrame) (col : string) (s : Series)
  : DataFrame :=
  {| index := index df; columns := <[col := s]> (columns df) |}.

(** [col in df.columns] *)
Definition has_column (df : DataFrame) (col : string) : bool :=
  bool_decide (is_Some (columns df !! col)).

(** [df[mask]] *)
Definition select (df : DataFrame) (mask : list bool) : DataFrame :=
  {| index := mask_select mask (index df);
     columns := mask_select mask <$> columns df |}.

(** [df.copy()]: frames are values. *)
Definition copy (df : DataFrame) : DataFrame := df.
End frame.

(** Python's truth value of a list: [if l:]. *)
Definition truthy {A} (l : list A) : bool :=
  match l with
  | [] => false
  | _ :: _ => true
  end.

(** A [for] loop whose body may raise. *)
Fixpoint for_each {S A} (body : S → A → result S) (st : S) (l : list A)
  : result S :=
  match l with
  | [] => Ok st
  | x :: l' => st' ← body st x; for_each body st' l'
  end.

(** ** The loader *)

Definition bool_cols : list string :=
  ["Running"; "Chasing"; "Climbing"; "Eating"; "Foraging"; "Kuks"; "Quaas";
   "Moans"; "Tail_flags"; "Tail_twitches"; "Approaches"; "Indifferent";
   "Runs_from"].

Section pipeline.
Context `{FloatModel}.

(** [pd.to_numeric(s.astype(str).str.replace(',', '.'), errors='coerce')] *)
Definition coerce_coordinates (s : Series) : Series :=
  to_numeric_coerce (series_str_replace "," "." (astype_str s)).

(** [lambda x: True if str(x).upper() == 'TRUE' else False] *)
Definition coerce_flag (x : cell) : cell :=
  if decide (upper (str x) = "TRUE") then CBool true else CBool false.

(** The body of the loop over [bool_cols]. *)
Definition normalize_flag (df : DataFrame) (col : string)
  : result DataFrame :=
  if has_column df col then
    s ← getitem df col;
    Ok (setitem df col (series_apply coerce_flag s))
  else Ok df.

(** [load_data], from the frame that [read_csv] returns. *)
Definition load_data (df : DataFrame) : result DataFrame :=
  x ← getitem df "X";
  let df := setitem df "X" (coerce_coordinates x) in
  y ← getitem df "Y";
  let df := setitem df "Y" (coerce_coordinates y) in
  for_each normalize_flag df bool_cols.

(** ** Sidebar options and filters *)

(** [df[col].dropna().unique().tolist()] *)
Definition options (df : DataFrame) (col : string) : result (list cell) :=
  s ← getitem df col;
  Ok (unique (dropna s)).

Definition fur_colors (df : DataFrame) : result (list cell) :=
  options df "Primary_Fur_Color".

Definition ages (df : DataFrame) : result (list cell) := options df "Age".

Definition shifts (df : DataFrame) : result (list cell) :=
  options df "Shift".

(** [if selected: filtered_df = filtered_df[filtered_df[col].isin(selected)]] *)
Definition filter_isin (filtered_df : DataFrame) (col : string)
    (selected : list cell) : result DataFrame :=
  if truthy selected then
    s ← getitem filtered_df col;
    Ok (select filtered_df (isin selected s))
  else Ok filtered_df.

(** The mask one filter step applies to a column: [isin] under the
    [if selected:] guard, every row when the guard skips the step. *)
Definition admits (selected : list cell) (s : Series) : list bool :=
  (λ x, bool_decide (selected = [] ∨ x ∈ selected)) <$> s.

(** The filter block: [filtered_df] from the three selections. *)
Definition apply_filters (df : DataFrame)
    (selected_colors selected_ages selected_shifts : list cell)
  : result DataFrame :=
  let filtered_df := copy df in
  filtered_df ← filter_isin filtered_df "Primary_Fur_Color" selected_colors;
  filtered_df ← filter_isin filtered_df "Age" selected_ages;
  filter_isin filtered_df "Shift" selected_shifts.

(** ** Aggregates *)

(** [len(filtered_df[filtered_df[col] == v])] *)
Definition count_where_equals (filtered_df : DataFrame) (col v : string)
  : result nat :=
  s ← getitem filtered_df col;
  Ok (len (select filtered_df (eq_str v s))).

Definition adult_count (filtered_df : DataFrame) : result nat :=
  count_where_equals filtered_df "Age" "Adult".

Definition gray_count (filtered_df : DataFrame) : result nat :=
  count_where_equals filtered_df "Primary_Fur_Color" "Gray".

(** [filtered_df[col].sum()] *)
Definition sum_column (filtered_df : DataFrame) (col : string) : result Z :=
  s ← getitem filtered_df col;
  series_sum s.

Definition eating_count (filtered_df : DataFrame) : result Z :=
  sum_column filtered_df "Eating".

(** [[filtered_df[c].sum() for c in cols]] *)
Definition column_sums (filtered_df : DataFrame) (cols : list string)
  : result (list Z) :=
  mapM (sum_column filtered_df) cols.

Definition activities : list string :=
  ["Running"; "Chasing"; "Climbing"; "Eating"; "Foraging"].

Definition vocalizations : list string := ["Kuks"; "Quaas"; "Moans"].

Definition interactions : list string :=
  ["Approaches"; "Indifferent"; "Runs_from"].

Definition activity_counts (filtered_df : DataFrame) : result (list Z) :=
  column_sums filtered_df activities.

Definition vocal_counts (filtered_df : DataFrame) : result (list Z) :=
  column_sums filtered_df vocalizations.

Definition interaction_counts (filtered_df : DataFrame) : result (list Z) :=
  column_sums filtered_df interactions.
End pipeline.

(** ** The map, the frequency charts and the table *)

(** Order of the entries of a frequency table: larger counts first. *)
Definition by_count_desc {A} (a b : A * nat) : Prop := b.2 ≤ a.2.

Global Instance by_count_desc_dec {A} (a b : A * nat) :
  Decision (by_count_desc a b).
Proof. unfold by_count_desc. apply _. Defined.

Section views.
Context `{FloatModel}.

(** [s.notna()] *)
Definition notna (s : Series) : list bool :=
  (λ x, bool_decide (x ≠ CNaN)) <$> s.

(** The row mask of [df.dropna(subset=cols)]: the rows that hold a value in
    every listed column.  A listed column that the frame lacks is a
    [KeyError]; the model reports the first such column. *)
Fixpoint notna_all (df : DataFrame) (cols : list string)
  : result (list bool) :=
  match cols with
  | [] => Ok (replicate (len df) true)
  | c :: cols' =>
      s ← getitem df c;
      mask ← notna_all df cols';
      Ok (zip_with andb (notna s) mask)
  end.

(** [df.dropna(subset=cols)] *)
Definition dropna_subset (df : DataFrame) (cols : list string)
  : result DataFrame :=
  mask ← notna_all df cols;
  Ok (select df mask).

(** [map_df = filtered_df.dropna(subset=['X', 'Y'])] *)
Definition map_df (filtered_df : DataFrame) : result DataFrame :=
  dropna_subset filtered_df ["X"; "Y"].

(** The test [len(map_df) > 0] that chooses between the map and the notice
    that there is no location data. *)
Definition has_location_data (filtered_df : DataFrame) : result bool :=
  m ← map_df filtered_df;
  Ok (bool_decide (0 < len m)).

(** The number of cells of a column equal to [v]. *)
Definition count_of (v : cell) (s : Series) : nat :=
  length (filter (λ x, x = v) s).

(** [s.value_counts()]: one entry per distinct value, missing values left
    out, each with its number of occurrences, larger counts first.  The
    entries are counted in order of appearance and then sorted by count; the
    library does not fix the order among entries of equal count, and no
    property below depends on it. *)
Definition value_counts (s : Series) : list (cell * nat) :=
  merge_sort by_count_desc ((λ v, (v, count_of v s)) <$> unique (dropna s)).

Definition color_counts (filtered_df : DataFrame)
  : result (list (cell * nat)) :=
  s ← getitem filtered_df "Primary_Fur_Color";
  Ok (value_counts s).

Definition shift_counts (filtered_df : DataFrame)
  : result (list (cell * nat)) :=
  s ← getitem filtered_df "Shift";
  Ok (value_counts s).

(** [df[[c1, c2, ...]]]: the frame of the listed columns.  A listed column
    that the frame lacks is a [KeyError]; the model reports the first such
    column. *)
Definition getitems (df : DataFrame) (cols : list string)
  : result DataFrame :=
  picked ← mapM (λ c, s ← getitem df c; Ok (c, s)) cols;
  Ok {| index := index df; columns := list_to_map picked |}.

(** [df.head(n)] *)
Definition head (n : nat) (df : DataFrame) : DataFrame :=
  {| index := take n (index df); columns := take n <$> columns df |}.

Definition table_columns : list string :=
  ["Unique_Squirrel_ID"; "Age"; "Primary_Fur_Color"; "Shift"; "Running";
   "Climbing"; "Eating"; "Foraging"].

(** [d] holds some of the rows of [df], in the order of [df], under the
    column names of [df]. *)
Definition subframe (d df : DataFrame) : Prop :=
  index d `sublist_of` index df ∧
  ∀ c, match columns df !! c with
       | Some s => ∃ s', columns d !! c = Some s' ∧ s' `sublist_of` s
       | None => columns d !! c = None
       end.

(** [filtered_df[[...]].head(100)], the frame of the data table. *)
Definition raw_data (filtered_df : DataFrame) : result DataFrame :=
  t ← getitems filtered_df table_columns;
  Ok (head 100 t).
End views.

(** ** A decimal instance of the numeric interface

    Numbers written with finitely many decimal digits, [mantissa / 10^scale],
    with the reader and the writer of plain decimal literals.  It is used to
    run the model on concrete frames. *)

Record decimal := {
  mantissa : Z;
  scale : nat;
}.

Global Instance decimal_eq_dec : EqDecision decimal.
Proof. solve_decision. Defined.

Definition digit_value (a : ascii) : option N :=
  let n := N_of_ascii a in
  if ((48 <=? n) && (n <=? 57))%N then Some (n - 48)%N else None.

(** The value of a run of digits, continuing from [acc]. *)
Fixpoint digits_value (acc : N) (s : string) : option N :=
  match s with
  | EmptyString => Some acc
  | String a s' => d ← digit_value a; digits_value (10 * acc + d)%N s'
  end.

(** The text before the first period, and the text after it if any. *)
Fixpoint split_period (s : string) : string * option string :=
  match s with
  | EmptyString => (EmptyString, None)
  | String a s' =>
      if decide (a = "."%char) then (EmptyString, Some s')
      else let '(i, f) := split_period s' in (String a i, f)
  end.

Definition strip_sign (s : string) : bool * string :=
  match s with
  | String "-"%char s' => (true, s')
  | String "+"%char s' => (false, s')
  | _ => (false, s)
  end.

Definition decimal_parse (s : string) : option decimal :=
  let '(neg, body) := strip_sign s in
  let '(ipart, fpart) := split_period body in
  let fdigits := default EmptyString fpart in
  if decide (String.length ipart + String.length fdigits = 0) then None
  else
    m ← digits_value 0 (ipart +:+ fdigits);
    Some {| mantissa := if neg then - Z.of_N m else Z.of_N m;
            scale := String.length fdigits |}.

Fixpoint zeros (n : nat) : string :=
  match n with
  | O => EmptyString
  | S n' => String "0"%char (zeros n')
  end.

Definition decimal_str (d : decimal) : string :=
  let m := Z.abs_N (mantissa d) in
  let p := (10 ^ N.of_nat (scale d))%N in
  let frac := pretty (m mod p)%N in
  (if (mantissa d <? 0)%Z then "-" else "") +:+ pretty (m / p)%N +:+ "." +:+
  (if decide (scale d = 0) then "0"
   else zeros (scale d - String.length frac) +:+ frac).

Definition decimal_model : FloatModel := {|
  float := decimal;
  float_str := decimal_str;
  float_parse := decimal_parse;
|}.

(** ** Concrete frames used in the examples *)

Module Examples.
#[local] Existing Instance decimal_model.

Definition frame (ix : list nat) (cols : list (string * Series))
  : DataFrame :=
  {| index := ix; columns := list_to_map cols |}.

(** Three sightings as read from the file, one of them without a recorded
    age and without a position. *)
Definition sightings : DataFrame :=
  frame [0; 1; 2]
    [("X", [CStr "-73,9"; CStr "N/A"; CStr "-73.97"]);
     ("Y", [CStr "40,78"; CNaN; CStr "40.79"]);
     ("Age", [CStr "Adult"; CNaN; CStr "Juvenile"]);
     ("Primary_Fur_Color", [CStr "Gray"; CStr "Gray"; CStr "Black"]);
     ("Shift", [CStr "AM"; CStr "PM"; CStr "AM"]);
     ("Eating", [CStr "true"; CStr "FALSE"; CNaN]);
     ("Climbing", [CBool true; CBool false; CBool true])].

(** The loaded form of [sightings]. *)
Definition census : DataFrame :=
  frame [0; 1; 2]
    [("X", [CFloat {| mantissa := -739; scale := 1 |}; CNaN;
            CFloat {| mantissa := -7397; scale := 2 |}]);
     ("Y", [CFloat {| mantissa := 4078; scale := 2 |}; CNaN;
            CFloat {| mantissa := 4079; scale := 2 |}]);
     ("Age", [CStr "Adult"; CNaN; CStr "Juvenile"]);
     ("Primary_Fur_Color", [CStr "Gray"; CStr "Gray"; CStr "Black"]);
     ("Shift", [CStr "AM"; CStr "PM"; CStr "AM"]);
     ("Eating", [CBool true; CBool false; CBool false]);
     ("Climbing", [CBool true; CBool false; CBool true])].

(** The rows of [census] that record an age. *)
Definition census_with_age : DataFrame :=
  frame [0; 2]
    [("X", [CFloat {| mantissa := -739; scale := 1 |};
            CFloat {| mantissa := -7397; scale := 2 |}]);
     ("Y", [CFloat {| mantissa := 4078; scale := 2 |};
            CFloat {| mantissa := 4079; scale := 2 |}]);
     ("Age", [CStr "Adult"; CStr "Juvenile"]);
     ("Primary_Fur_Color", [CStr "Gray"; CStr "Black"]);
     ("Shift", [CStr "AM"; CStr "AM"]);
     ("Eating", [CBool true; CBool false]);
     ("Climbing", [CBool true; CBool true])].

(** Raw flag values, one per row. *)
Definition tokens : Series :=
  [CStr "true"; CStr "TRUE"; CStr "True"; CStr "FALSE"; CStr ""; CStr "1";
   CNaN; CStr "yes"; CBool true; CBool false; CInt 1].

(** A frame that has the coordinates and none of the flag columns, and its
    loaded form. *)
Definition no_flags : DataFrame :=
  frame [0]
    [("X", [CStr "-73,9"]);
     ("Y", [CStr "40,78"]);
     ("Age", [CStr "Adult"])].

Definition no_flags_loaded : DataFrame :=
  frame [0]
    [("X", [CFloat {| mantissa := -739; scale := 1 |}]);
     ("Y", [CFloat {| mantissa := 4078; scale := 2 |}]);
     ("Age", [CStr "Adult"])].

(** Twelve rows, three of them climbing and ten of them eating. *)
Definition climbers : DataFrame :=
  frame (seq 0 12)
    [("Climbing", replicate 3 (CBool true) ++ replicate 9 (CBool false));
     ("Eating", replicate 10 (CBool true) ++ replicate 2 (CBool false))].
End Examples.

Module MoreExamples.
#[local] Existing Instance decimal_model.
Import Examples.

(** Two sightings with the eight columns of the data table. *)
Definition roster : DataFrame :=
  frame [0; 1]
    [("Unique_Squirrel_ID", [CStr "37F-PM-1014-03"; CStr "21B-AM-1019-04"]);
     ("X", [CFloat {| mantissa := -739; scale := 1 |}; CNaN]);
     ("Y", [CFloat {| mantissa := 4078; scale := 2 |}; CNaN]);
     ("Age", [CStr "Adult"; CNaN]);
     ("Primary_Fur_Color", [CStr "Gray"; CStr "Cinnamon"]);
     ("Shift", [CStr "PM"; CStr "AM"]);
     ("Running", [CBool false; CBool true]);
     ("Climbing", [CBool false; CBool false]);
     ("Eating", [CBool true; CBool false]);
     ("Foraging", [CBool false; CBool true])].

(** The coordinate columns of [census]. *)
Definition census_xs : Series :=
  [CFloat {| mantissa := -739; scale := 1 |}; CNaN;
   CFloat {| mantissa := -7397; scale := 2 |}].

Definition census_ys : Series :=
  [CFloat {| mantissa := 4078; scale := 2 |}; CNaN;
   CFloat {| mantissa := 4079; scale := 2 |}].

(** The data table of [roster]. *)
Definition roster_shown : DataFrame :=
  frame [0; 1]
    [("Unique_Squirrel_ID", [CStr "37F-PM-1014-03"; CStr "21B-AM-1019-04"]);
     ("Age", [CStr "Adult"; CNaN]);
     ("Primary_Fur_Color", [CStr "Gray"; CStr "Cinnamon"]);
     ("Shift", [CStr "PM"; CStr "AM"]);
     ("Running", [CBool false; CBool true]);
     ("Climbing", [CBool false; CBool false]);
     ("Eating", [CBool true; CBool false]);
     ("Foraging", [CBool false; CBool true])].

(** The adults of [census], and its juveniles. *)
Definition census_adults : DataFrame :=
  frame [0]
    [("X", [CFloat {| mantissa := -739; scale := 1 |}]);
     ("Y", [CFloat {| mantissa := 4078; scale := 2 |}]);
     ("Age", [CStr "Adult"]);
     ("Primary_Fur_Color", [CStr "Gray"]);
     ("Shift", [CStr "AM"]);
     ("Eating", [CBool true]);
     ("Climbing", [CBool true])].

Definition census_juveniles : DataFrame :=
  frame [2]
    [("X", [CFloat {| mantissa := -7397; scale := 2 |}]);
     ("Y", [CFloat {| mantissa := 4079; scale := 2 |}]);
     ("Age", [CStr "Juvenile"]);
     ("Primary_Fur_Color", [CStr "Black"]);
     ("Shift", [CStr "AM"]);
     ("Eating", [CBool false]);
     ("Climbing", [CBool true])].

(** The rows of [census] with a position. *)
Definition census_on_map : DataFrame :=
  frame [0; 2]
    [("X", [CFloat {| mantissa := -739; scale := 1 |};
            CFloat {| mantissa := -7397; scale := 2 |}]);
     ("Y", [CFloat {| mantissa := 4078; scale := 2 |};
            CFloat {| mantissa := 4079; scale := 2 |}]);
     ("Age", [CStr "Adult"; CStr "Juvenile"]);
     ("Primary_Fur_Color", [CStr "Gray"; CStr "Black"]);
     ("Shift", [CStr "AM"; CStr "AM"]);
     ("Eating", [CBool true; CBool false]);
     ("Climbing", [CBool true; CBool true])].
End MoreExamples.

(** * Properties *)

Section proofs.
Context `{FloatModel}.

(** ** The error monad *)

Lemma bind_Ok {A B} (f : A → result B) a : Ok a ≫= f = f a.
Proof. done. Qed.

Lemma bind_Err {A B} (f : A → result B) e : Err e ≫= f = Err e.
Proof. done. Qed.

(** ** Strings *)

Lemma str_replace_length old new s :
  String.length (str_replace old new s) = String.length s.
Proof. induction s as [|a s IH]; simpl; [done | by rewrite IH]. Qed.

Lemma str_replace_get old new s i :
  String.get i (str_replace old new s) =
  (λ a, if decide (a = old) then new else a) <$> String.get i s.
Proof.
  revert i. induction s as [|a s IH]; intros i; simpl; [done|].
  destruct i as [|i]; simpl; [done | apply IH].
Qed.

Lemma str_replace_idemp old new s :
  old ≠ new →
  str_replace old new (str_replace old new s) = str_replace old new s.
Proof.
  intros Hne. induction s as [|a s IH]; simpl; [done|].
  rewrite IH. f_equal. repeat case_decide; congruence.
Qed.

(** ** The loop over the flag columns *)

Lemma normalize_flag_alter (df : DataFrame) col :
  normalize_flag df col =
  Ok {| index := index df;
        columns := alter (series_apply coerce_flag) col (columns df) |}.
Proof.
  unfold normalize_flag, has_column, getitem, setitem.
  destruct df as [ix cols]; simpl.
  destruct (cols !! col) as [s|] eqn:Hcol; simpl.
  - do 2 f_equal.
    apply map_eq; intros c. rewrite lookup_alter, lookup_insert.
    case_decide; subst; by rewrite ?Hcol.
  - do 2 f_equal. apply map_eq; intros c. rewrite lookup_alter.
    case_decide; subst; by rewrite ?Hcol.
Qed.

Lemma for_each_normalize_flag (df : DataFrame) cols :
  for_each normalize_flag df cols =
  Ok {| index := index df;
        columns := foldl (λ m c, alter (series_apply coerce_flag) c m)
                     (columns df) cols |}.
Proof.
  revert df. induction cols as [|c cols IH]; intros df; simpl.
  - by destruct df.
  - rewrite normalize_flag_alter. simpl. by rewrite IH.
Qed.

Lemma lookup_foldl_alter {A} (f : A → A) (m : gmap string A) cols c :
  NoDup cols →
  foldl (λ m c, alter f c m) m cols !! c =
  if decide (c ∈ cols) then f <$> m !! c else m !! c.
Proof.
  intros Hnd. revert m. induction Hnd as [|c' cols Hnotin Hnd IH]; intros m.
  - done.
  - cbn [foldl]. rewrite IH. rewrite lookup_alter.
    destruct (decide (c = c')) as [->|Hne].
    + rewrite (decide_False (P := c' ∈ cols)) by done.
      rewrite (decide_True (P := c' ∈ c' :: cols)) by apply list_elem_of_here.
      by rewrite decide_True.
    + rewrite (decide_False (P := c' = c)) by done.
      destruct (decide (c ∈ cols)) as [Hin|Hin].
      * rewrite decide_True by (by apply list_elem_of_further). done.
      * rewrite decide_False; [done|].
        rewrite elem_of_cons. intros [?|?]; done.
Qed.

Lemma bool_cols_NoDup : NoDup bool_cols.
Proof. compute_done. Qed.

(** ** The loader, column by column *)

(** The column [col] of the loaded frame, from the frame read. *)
Lemma load_data_columns (df : DataFrame) xs ys :
  columns df !! "X" = Some xs →
  columns df !! "Y" = Some ys →
  ∃ df', load_data df = Ok df' ∧ index df' = index df ∧
    ∀ col, columns df' !! col =
      if decide (col = "X") then Some (coerce_coordinates xs)
      else if decide (col = "Y") then Some (coerce_coordinates ys)
      else if decide (col ∈ bool_cols)
           then series_apply coerce_flag <$> columns df !! col
      else columns df !! col.
Proof.
  intros HX HY. unfold load_data, getitem. rewrite HX, bind_Ok.
  cbn [setitem columns]. rewrite lookup_insert_ne by done.
  rewrite HY, bind_Ok, for_each_normalize_flag.
  eexists; split; [done|]. split; [done|]. intros col.
  cbn [columns setitem].
  rewrite lookup_foldl_alter by apply bool_cols_NoDup.
  destruct (decide (col = "X")) as [->|HnX].
  { rewrite decide_False by compute_done.
    rewrite lookup_insert_ne by done. by rewrite lookup_insert_eq. }
  destruct (decide (col = "Y")) as [->|HnY].
  { rewrite decide_False by compute_done. by rewrite lookup_insert_eq. }
  rewrite !lookup_insert_ne by done. done.
Qed.

(** The loader fails only on a frame without a coordinate column. *)
Lemma load_data_inv (df df' : DataFrame) :
  load_data df = Ok df' →
  ∃ xs ys, columns df !! "X" = Some xs ∧ columns df !! "Y" = Some ys.
Proof.
  unfold load_data, getitem. intros Hload.
  destruct (columns df !! "X") as [xs|] eqn:HX; [|done].
  rewrite bind_Ok in Hload. cbn [setitem columns] in Hload.
  rewrite lookup_insert_ne in Hload by done.
  destruct (columns df !! "Y") as [ys|] eqn:HY; [|done]. eauto.
Qed.

(** The loader keeps one cell per row in every column. *)
Lemma wf_load_data (df df' : DataFrame) :
  wf df → load_data df = Ok df' → wf df'.
Proof.
  intros Hwf Hload.
  destruct (load_data_inv _ _ Hload) as (xs & ys & HX & HY).
  destruct (load_data_columns df xs ys HX HY) as (df'' & Hload' & Hix & Hcols).
  rewrite Hload in Hload'. injection Hload' as <-.
  intros col s'. rewrite Hcols, Hix.
  assert (Hlen : ∀ s, length (coerce_coordinates s) = length s).
  { intros s. unfold coerce_coordinates, to_numeric_coerce,
      series_str_replace, astype_str. by rewrite !length_fmap. }
  repeat case_decide.
  - intros [= <-]. rewrite Hlen. by apply (Hwf "X").
  - intros [= <-]. rewrite Hlen. by apply (Hwf "Y").
  - destruct (columns df !! col) as [s|] eqn:Hs; [|done].
    intros [= <-]. unfold series_apply. rewrite length_fmap.
    by apply (Hwf col).
  - apply Hwf.
Qed.

Lemma coerce_flag_bool x :
  coerce_flag x = CBool true ∨ coerce_flag x = CBool false.
Proof. unfold coerce_flag. case_decide; auto. Qed.

(** C3: in a declared flag column present in the frame read, the loader
    turns a raw value into [True] exactly when the upper-case form of its
    text is ['TRUE'], and into [False] in every other case; the column keeps
    its length and the order of its rows. *)
Theorem flag_true_iff_upper_is_TRUE (df df' : DataFrame) col s :
  load_data df = Ok df' →
  col ∈ bool_cols →
  columns df !! col = Some s →
  ∃ s', columns df' !! col = Some s' ∧ length s' = length s ∧
    ∀ i x, s !! i = Some x →
      (upper (str x) = "TRUE" → s' !! i = Some (CBool true)) ∧
      (upper (str x) ≠ "TRUE" → s' !! i = Some (CBool false)).
Proof.
  intros Hload Hcol Hs.
  destruct (load_data_inv _ _ Hload) as (xs & ys & HX & HY).
  destruct (load_data_columns df xs ys HX HY) as (df'' & Hload' & _ & Hcols).
  rewrite Hload in Hload'. injection Hload' as <-.
  exists (series_apply coerce_flag s). split.
  - rewrite Hcols. rewrite decide_False by (intros ->; revert Hcol; compute_done).
    rewrite decide_False by (intros ->; revert Hcol; compute_done).
    rewrite decide_True by done. by rewrite Hs.
  - split; [apply length_fmap|]. intros i x Hx.
    unfold series_apply. rewrite list_lookup_fmap, Hx. unfold coerce_flag.
    split; intros Hup; cbn [fmap option_fmap option_map];
      [rewrite decide_True | rewrite decide_False]; done.
Qed.

(** C4: when the frame read has the two coordinate columns the loader
    returns, and each coordinate is obtained from the raw value by taking its
    text, putting a period in place of every comma and parsing the result as
    a number; the loaded value is that number when the parse succeeds and the
    missing value when it fails, so never a number and in particular never
    zero. *)
Theorem coordinates_parsed_or_missing (df : DataFrame) xs ys :
  columns df !! "X" = Some xs →
  columns df !! "Y" = Some ys →
  ∃ df', load_data df = Ok df' ∧
    ∀ col s, col = "X" ∨ col = "Y" → columns df !! col = Some s →
      ∃ s', columns df' !! col = Some s' ∧ length s' = length s ∧
        ∀ i x, s !! i = Some x →
          ∃ t, String.length t = String.length (str x) ∧
            (∀ k, String.get k t =
                  (λ a, if decide (a = ","%char) then "."%char else a)
                    <$> String.get k (str x)) ∧
            match float_parse t with
            | Some f => s' !! i = Some (CFloat f)
            | None => s' !! i = Some CNaN ∧ ∀ f, s' !! i ≠ Some (CFloat f)
            end.
Proof.
  intros HX HY.
  destruct (load_data_columns df xs ys HX HY) as (df' & Hload & _ & Hcols).
  exists df'. split; [done|]. intros col s Hcol Hs.
  exists (coerce_coordinates s). split.
  - rewrite Hcols. destruct Hcol as [-> | ->].
    + rewrite decide_True by done. congruence.
    + rewrite decide_False by done. rewrite decide_True by done. congruence.
  - split.
    { unfold coerce_coordinates, to_numeric_coerce, series_str_replace,
        astype_str. by rewrite !length_fmap. }
    intros i x Hx. exists (str_replace "," "." (str x)).
    split; [apply str_replace_length|]. split; [apply str_replace_get|].
    unfold coerce_coordinates, to_numeric_coerce, series_str_replace,
      astype_str.
    rewrite !list_lookup_fmap, Hx. cbn [fmap option_fmap option_map].
    unfold to_numeric_coerce1.
    destruct (float_parse (str_replace "," "." (str x))); [done|].
    split; [done|]. intros f; done.
Qed.

(** C5, amended: in a frame produced by the loader, every declared flag
    column that the frame has was present in the frame read, and each of its
    cells is exactly [True] or [False]; a declared flag column missing from
    the frame read is missing from the loaded frame too. *)
Theorem present_flags_are_boolean (df df' : DataFrame) col :
  load_data df = Ok df' →
  col ∈ bool_cols →
  match columns df' !! col with
  | Some s' =>
      is_Some (columns df !! col) ∧
      Forall (λ x, x = CBool true ∨ x = CBool false) s'
  | None => columns df !! col = None
  end.
Proof.
  intros Hload Hcol.
  destruct (load_data_inv _ _ Hload) as (xs & ys & HX & HY).
  destruct (load_data_columns df xs ys HX HY) as (df'' & Hload' & _ & Hcols).
  rewrite Hload in Hload'. injection Hload' as <-.
  rewrite Hcols. rewrite decide_False by (intros ->; revert Hcol; compute_done).
  rewrite decide_False by (intros ->; revert Hcol; compute_done).
  rewrite decide_True by done.
  destruct (columns df !! col) as [s|]; cbn [fmap option_fmap option_map];
    [|done].
  split; [by eexists|]. unfold series_apply. apply Forall_fmap.
  apply Forall_forall. intros x _. apply coerce_flag_bool.
Qed.

(** C8: when the frame read has the two coordinate columns and lacks one of
    the declared flag columns, the loader still returns: the rows are those
    read, the missing column stays missing, the coordinate columns are
    coerced, every declared flag column that is present is normalised, and
    every other column is the one read. *)
Theorem load_skips_missing_flag_columns (df : DataFrame) xs ys col :
  columns df !! "X" = Some xs →
  columns df !! "Y" = Some ys →
  col ∈ bool_cols →
  columns df !! col = None →
  ∃ df', load_data df = Ok df' ∧ index df' = index df ∧
    columns df' !! col = None ∧
    columns df' !! "X" = Some (coerce_coordinates xs) ∧
    columns df' !! "Y" = Some (coerce_coordinates ys) ∧
    (∀ c, c ∈ bool_cols →
       columns df' !! c = series_apply coerce_flag <$> columns df !! c) ∧
    (∀ c, c ≠ "X" → c ≠ "Y" → c ∉ bool_cols →
       columns df' !! c = columns df !! c).
Proof.
  intros HX HY Hcol Hnone.
  destruct (load_data_columns df xs ys HX HY) as (df' & Hload & Hix & Hcols).
  exists df'. split; [done|]. split; [done|].
  assert (Hflag : ∀ c, c ∈ bool_cols →
    columns df' !! c = series_apply coerce_flag <$> columns df !! c).
  { intros c Hc. rewrite Hcols.
    rewrite decide_False by (intros ->; revert Hc; compute_done).
    rewrite decide_False by (intros ->; revert Hc; compute_done).
    by rewrite decide_True. }
  split; [by rewrite Hflag, Hnone|].
  split; [by rewrite Hcols, decide_True|].
  split.
  { rewrite Hcols. rewrite decide_False by done. by rewrite decide_True. }
  split; [done|]. intros c HnX HnY Hc. rewrite Hcols.
  by rewrite !decide_False.
Qed.

(** C9: whatever the cells hold, the loader returns on every frame that has
    the two coordinate columns; no row is dropped: the index is the one read
    and every column keeps its length; a coordinate whose text does not parse
    is loaded as the missing value and a flag whose text is not ['TRUE'] in
    upper case is loaded as [False]. *)
Theorem coercions_total_and_keep_rows (df : DataFrame) xs ys :
  columns df !! "X" = Some xs →
  columns df !! "Y" = Some ys →
  ∃ df', load_data df = Ok df' ∧ index df' = index df ∧
    (∀ col s, columns df !! col = Some s →
       ∃ s', columns df' !! col = Some s' ∧ length s' = length s) ∧
    (∀ col s i x, col = "X" ∨ col = "Y" →
       columns df !! col = Some s → s !! i = Some x →
       float_parse (str_replace "," "." (str x)) = None →
       ∃ s', columns df' !! col = Some s' ∧ s' !! i = Some CNaN) ∧
    (∀ col s i x, col ∈ bool_cols →
       columns df !! col = Some s → s !! i = Some x →
       upper (str x) ≠ "TRUE" →
       ∃ s', columns df' !! col = Some s' ∧ s' !! i = Some (CBool false)).
Proof.
  intros HX HY.
  destruct (load_data_columns df xs ys HX HY) as (df' & Hload & Hix & Hcols).
  exists df'. split; [done|]. split; [done|].
  assert (Hcoord : ∀ col s, col = "X" ∨ col = "Y" →
    columns df !! col = Some s →
    columns df' !! col = Some (coerce_coordinates s)).
  { intros col s [-> | ->] Hs; rewrite Hcols.
    - rewrite decide_True by done. congruence.
    - rewrite decide_False by done. rewrite decide_True by done. congruence. }
  assert (Hlen : ∀ s, length (coerce_coordinates s) = length s).
  { intros s. unfold coerce_coordinates, to_numeric_coerce,
      series_str_replace, astype_str. by rewrite !length_fmap. }
  split; [|split].
  - intros col s Hs.
    destruct (decide (col = "X")) as [->|HnX].
    { eexists; split; [apply Hcoord; eauto | apply Hlen]. }
    destruct (decide (col = "Y")) as [->|HnY].
    { eexists; split; [apply Hcoord; eauto | apply Hlen]. }
    rewrite Hcols, !(decide_False (P := col = _)) by done.
    case_decide; rewrite Hs; cbn [fmap option_fmap option_map].
    + eexists; split; [done | apply length_fmap].
    + eauto.
  - intros col s i x Hcol Hs Hx Hparse.
    exists (coerce_coordinates s). split; [by apply Hcoord|].
    unfold coerce_coordinates, to_numeric_coerce, series_str_replace,
      astype_str.
    rewrite !list_lookup_fmap, Hx. cbn [fmap option_fmap option_map].
    unfold to_numeric_coerce1. by rewrite Hparse.
  - intros col s i x Hcol Hs Hx Hup.
    exists (series_apply coerce_flag s). split.
    + rewrite Hcols.
      rewrite decide_False by (intros ->; revert Hcol; compute_done).
      rewrite decide_False by (intros ->; revert Hcol; compute_done).
      rewrite decide_True by done. by rewrite Hs.
    + unfold series_apply. rewrite list_lookup_fmap, Hx.
      cbn [fmap option_fmap option_map]. unfold coerce_flag.
      by rewrite decide_False.
Qed.

(** ** First-seen values *)

Lemma elem_of_unique_from seen (s : Series) x :
  x ∈ unique_from seen s ↔ x ∈ s ∧ x ∉ seen.
Proof.
  revert seen. induction s as [|a s IH]; intros seen; cbn [unique_from].
  - split; [by intros ?%elem_of_nil | by intros [?%elem_of_nil _]].
  - destruct (decide (a ∈ seen)) as [Hin|Hin].
    + rewrite IH, elem_of_cons. split; [tauto|].
      intros [[->|?] ?]; [done | tauto].
    + rewrite !elem_of_cons, IH, elem_of_cons.
      split; [intros [->|[? ?]]; tauto|].
      destruct (decide (x = a)) as [->|?]; [tauto|]. intros [[?|?] ?]; tauto.
Qed.

Lemma NoDup_unique_from seen (s : Series) : NoDup (unique_from seen s).
Proof.
  revert seen. induction s as [|a s IH]; intros seen; cbn [unique_from].
  - constructor.
  - case_decide; [apply IH|]. constructor; [|apply IH].
    rewrite elem_of_unique_from, elem_of_cons. tauto.
Qed.

(** Of two values of [unique], the earlier one occurs in the column before
    every occurrence of the later one. *)
Lemma unique_from_order seen (s : Series) i j x y :
  unique_from seen s !! i = Some x →
  unique_from seen s !! j = Some y →
  i < j →
  ∃ s1 s2, s = s1 ++ x :: s2 ∧ y ∉ s1.
Proof.
  revert seen i j. induction s as [|a s IH]; intros seen i j;
    cbn [unique_from]; [done|].
  destruct (decide (a ∈ seen)) as [Hin|Hin].
  - intros Hi Hj Hlt.
    destruct (IH _ _ _ Hi Hj Hlt) as (s1 & s2 & -> & Hy).
    exists (a :: s1), s2. split; [done|].
    rewrite elem_of_cons. intros [->|?]; [|done].
    apply list_elem_of_lookup_2, elem_of_unique_from in Hj. tauto.
  - destruct i as [|i]; intros Hi Hj Hlt.
    + injection Hi as <-. exists [], s. split; [done | apply not_elem_of_nil].
    + destruct j as [|j]; [lia|]. cbn [lookup list_lookup] in Hi, Hj.
      destruct (IH _ _ _ Hi Hj ltac:(lia)) as (s1 & s2 & -> & Hy).
      exists (a :: s1), s2. split; [done|].
      rewrite elem_of_cons. intros [->|?]; [|done].
      apply list_elem_of_lookup_2, elem_of_unique_from in Hj.
      rewrite elem_of_cons in Hj. tauto.
Qed.

Lemma filter_eq_app_cons {A} (P : A → Prop) `{!∀ x, Decision (P x)}
    (s l1 l2 : list A) x :
  filter P s = l1 ++ x :: l2 →
  ∃ s1 s2, s = s1 ++ x :: s2 ∧ filter P s1 = l1.
Proof.
  revert l1. induction s as [|a s IH]; intros l1 Heq.
  - by destruct l1.
  - rewrite filter_cons in Heq. destruct (decide (P a)) as [HP|HP].
    + destruct l1 as [|b l1]; injection Heq as <- Heq.
      * exists [], s. done.
      * destruct (IH _ Heq) as (s1 & s2 & -> & Hf).
        exists (a :: s1), s2. split; [done|].
        rewrite filter_cons, decide_True by done. by rewrite Hf.
    + destruct (IH _ Heq) as (s1 & s2 & -> & Hf).
      exists (a :: s1), s2. split; [done|].
      by rewrite filter_cons, decide_False.
Qed.

(** C7: the option list of a column is made of the distinct values of the
    column, the missing value left out, in the order in which they first
    occur: of two options, the earlier one occurs in the column before every
    occurrence of the later one. *)
Theorem options_distinct_first_seen (df : DataFrame) col s :
  columns df !! col = Some s →
  ∃ vs, options df col = Ok vs ∧
    NoDup vs ∧
    (∀ x, x ∈ vs ↔ x ∈ s ∧ x ≠ CNaN) ∧
    ∀ i j x y, vs !! i = Some x → vs !! j = Some y → i < j →
      ∃ s1 s2, s = s1 ++ x :: s2 ∧ y ∉ s1.
Proof.
  intros Hs. exists (unique (dropna s)). unfold options, getitem.
  rewrite Hs, bind_Ok. split; [done|]. unfold unique.
  split; [apply NoDup_unique_from|]. split.
  - intros x. rewrite elem_of_unique_from. unfold dropna.
    rewrite list_elem_of_filter. split; [tauto|].
    intros [? ?]. split; [done | apply not_elem_of_nil].
  - intros i j x y Hi Hj Hlt.
    destruct (unique_from_order _ _ _ _ _ _ Hi Hj Hlt) as (l1 & l2 & Heq & Hy).
    destruct (filter_eq_app_cons _ _ _ _ _ Heq) as (s1 & s2 & -> & Hf).
    exists s1, s2. split; [done|]. intros Hin. apply Hy. rewrite <- Hf.
    apply list_elem_of_filter. split; [|done].
    apply list_elem_of_lookup_2, elem_of_unique_from in Hj.
    destruct Hj as [Hj _]. unfold dropna in Hj.
    by apply list_elem_of_filter in Hj as [? _].
Qed.

(** ** Boolean masks *)

Lemma mask_select_fmap {A B} (f : A → B) mask (l : list A) :
  mask_select mask (f <$> l) = f <$> mask_select mask l.
Proof.
  revert l. induction mask as [|b mask IH]; intros [|x l]; try done.
  cbn [fmap list_fmap mask_select]. destruct b; cbn [fmap list_fmap];
    by rewrite <- IH.
Qed.

Lemma mask_select_true {A} mask (l : list A) :
  length mask = length l →
  Forall (λ b, b = true) mask →
  mask_select mask l = l.
Proof.
  intros Hlen Hall. revert l Hlen.
  induction Hall as [|b mask -> _ IH]; intros [|x l] Hlen; try done.
  cbn [mask_select]. f_equal. apply IH. by injection Hlen.
Qed.

Lemma mask_select_compose {A} (m1 m2 : list bool) (l : list A) :
  mask_select (mask_select m1 m2) (mask_select m1 l) =
  mask_select (zip_with andb m1 m2) l.
Proof.
  revert m2 l. induction m1 as [|b1 m1 IH]; intros [|b2 m2] [|x l];
    try done; cbn [mask_select zip_with].
  - destruct b1; [done | by destruct (mask_select m1 m2)].
  - destruct b1; cbn [andb mask_select]; [|apply IH].
    destruct b2; by rewrite IH.
Qed.

Lemma length_mask_select {A B} mask (l : list A) (k : list B) :
  length l = length k →
  length (mask_select mask l) = length (mask_select mask k).
Proof.
  revert l k. induction mask as [|b mask IH]; intros [|x l] [|y k] Hlen;
    try done.
  injection Hlen as Hlen. cbn [mask_select].
  destruct b; cbn [length]; by rewrite (IH l k).
Qed.

Lemma length_mask_select_decide {A B} (P : A → Prop) `{!∀ x, Decision (P x)}
    (l : list A) (k : list B) :
  length l = length k →
  length (mask_select ((λ x, bool_decide (P x)) <$> l) k) =
  length (filter P l).
Proof.
  revert k. induction l as [|x l IH]; intros [|y k] Hlen; try done.
  injection Hlen as Hlen. cbn [fmap list_fmap mask_select].
  rewrite filter_cons. destruct (decide (P x)) as [HP|HP].
  - rewrite bool_decide_eq_true_2 by done. cbn [length]. f_equal.
    by apply IH.
  - rewrite bool_decide_eq_false_2 by done. by apply IH.
Qed.

Lemma admits_mask_select selected mask (s : Series) :
  admits selected (mask_select mask s) = mask_select mask (admits selected s).
Proof. unfold admits. by rewrite mask_select_fmap. Qed.

Lemma admits_isin selected (s : Series) :
  selected ≠ [] → admits selected s = isin selected s.
Proof.
  intros Hne. unfold admits, isin. apply list_fmap_ext. intros _ x _.
  apply bool_decide_ext. tauto.
Qed.

Lemma admits_nil (s : Series) : Forall (λ b, b = true) (admits [] s).
Proof.
  unfold admits. apply Forall_fmap, Forall_forall. intros x _.
  apply bool_decide_eq_true_2. by left.
Qed.

(** ** Frames under a mask *)

Lemma wf_select (df : DataFrame) mask : wf df → wf (select df mask).
Proof.
  intros Hwf. unfold wf, select. cbn [index columns].
  intros col s'. rewrite lookup_fmap.
  destruct (columns df !! col) as [s|] eqn:Hs; [|done].
  intros [= <-]. apply length_mask_select. by apply (Hwf col).
Qed.

Lemma select_true (df : DataFrame) mask :
  wf df →
  length mask = len df →
  Forall (λ b, b = true) mask →
  select df mask = df.
Proof.
  intros Hwf Hlen Hall. destruct df as [ix cols]. unfold select, len in *.
  cbn [index columns] in *. f_equal; [by apply mask_select_true|].
  rewrite <- (map_fmap_id cols) at 2. apply map_fmap_ext.
  intros col s Hs. apply mask_select_true; [|done].
  rewrite Hlen. symmetry. by apply (Hwf col).
Qed.

Lemma select_select (df : DataFrame) m1 m2 :
  select (select df m1) (mask_select m1 m2) =
  select df (zip_with andb m1 m2).
Proof.
  unfold select. cbn [index columns]. f_equal.
  - apply mask_select_compose.
  - rewrite <- map_fmap_compose. apply map_fmap_ext. intros col s _.
    apply mask_select_compose.
Qed.

(** One filter step is a selection by the mask [admits]. *)
Lemma filter_isin_admits (df : DataFrame) col selected s :
  wf df →
  columns df !! col = Some s →
  filter_isin df col selected = Ok (select df (admits selected s)).
Proof.
  intros Hwf Hs. unfold filter_isin, getitem. rewrite Hs.
  destruct selected as [|v selected]; cbn [truthy].
  - rewrite select_true; [done | done | | apply admits_nil].
    unfold admits, len. rewrite length_fmap. by apply (Hwf col).
  - by rewrite bind_Ok, admits_isin.
Qed.

(** The filter block is one selection, by the conjunction of the masks of
    the three steps. *)
Lemma apply_filters_admits (df : DataFrame) c a s cs gs hs :
  wf df →
  columns df !! "Primary_Fur_Color" = Some cs →
  columns df !! "Age" = Some gs →
  columns df !! "Shift" = Some hs →
  apply_filters df c a s =
  Ok (select df (zip_with andb (zip_with andb (admits c cs) (admits a gs))
                   (admits s hs))).
Proof.
  intros Hwf Hcs Hgs Hhs. unfold apply_filters, copy.
  rewrite (filter_isin_admits df _ c cs), bind_Ok by done.
  rewrite (filter_isin_admits _ _ a (mask_select (admits c cs) gs)).
  2: by apply wf_select.
  2: { unfold select. cbn [columns]. by rewrite lookup_fmap, Hgs. }
  rewrite bind_Ok, admits_mask_select, select_select.
  rewrite (filter_isin_admits _ _ s
    (mask_select (zip_with andb (admits c cs) (admits a gs)) hs)).
  2: by apply wf_select.
  2: { unfold select. cbn [columns]. by rewrite lookup_fmap, Hhs. }
  by rewrite admits_mask_select, select_select.
Qed.

(** The filter block keeps well-formed frames well formed. *)
Lemma wf_filter_isin (df fdf : DataFrame) col selected :
  wf df → filter_isin df col selected = Ok fdf → wf fdf.
Proof.
  intros Hwf. unfold filter_isin, getitem.
  destruct (truthy selected); [|by intros [= <-]].
  destruct (columns df !! col); [|done]. rewrite bind_Ok.
  intros [= <-]. by apply wf_select.
Qed.

Lemma wf_apply_filters (df fdf : DataFrame) c a s :
  wf df → apply_filters df c a s = Ok fdf → wf fdf.
Proof.
  intros Hwf. unfold apply_filters, copy.
  destruct (filter_isin df _ c) as [d1|] eqn:H1; [|done]. rewrite bind_Ok.
  destruct (filter_isin d1 _ a) as [d2|] eqn:H2; [|done]. rewrite bind_Ok.
  intros H3. eapply wf_filter_isin in H1; [|done].
  eapply wf_filter_isin in H2; [|done]. by eapply wf_filter_isin in H3.
Qed.

(** Row [i] of the conjunction of the three masks. *)
Lemma lookup_admits3 c a s (cs gs hs : Series) i x y z :
  cs !! i = Some x → gs !! i = Some y → hs !! i = Some z →
  zip_with andb (zip_with andb (admits c cs) (admits a gs)) (admits s hs)
    !! i =
  Some (bool_decide ((c = [] ∨ x ∈ c) ∧ (a = [] ∨ y ∈ a) ∧ (s = [] ∨ z ∈ s))).
Proof.
  intros Hx Hy Hz. unfold admits.
  rewrite !lookup_zip_with, !list_lookup_fmap, Hx, Hy, Hz.
  cbn [fmap option_fmap option_map mbind option_bind]. f_equal.
  rewrite <- !bool_decide_and. apply bool_decide_ext. tauto.
Qed.

Lemma apply_filters_rows (df : DataFrame) c a s cs gs hs :
  wf df →
  columns df !! "Primary_Fur_Color" = Some cs →
  columns df !! "Age" = Some gs →
  columns df !! "Shift" = Some hs →
  ∃ mask, apply_filters df c a s = Ok (select df mask) ∧
    length mask = len df ∧
    ∀ i x y z, cs !! i = Some x → gs !! i = Some y → hs !! i = Some z →
      mask !! i =
      Some (bool_decide
              ((c = [] ∨ x ∈ c) ∧ (a = [] ∨ y ∈ a) ∧ (s = [] ∨ z ∈ s))).
Proof.
  intros Hwf Hcs Hgs Hhs. eexists. split; [by apply apply_filters_admits|].
  split; [|intros i x y z; apply lookup_admits3].
  unfold admits, len. rewrite !length_zip_with, !length_fmap.
  rewrite (Hwf _ _ Hcs), (Hwf _ _ Hgs), (Hwf _ _ Hhs). lia.
Qed.

(** C1, amended: a field supplied with an empty selection is left
    unconstrained.  On a well-formed table with the three filtered columns,
    the filter block returns the rows that, for each of the three fields,
    either face an empty selection or hold a selected value, in table order;
    with the three selections empty it returns the table itself. *)
Theorem empty_selection_is_unconstrained (df : DataFrame) c a s cs gs hs :
  wf df →
  columns df !! "Primary_Fur_Color" = Some cs →
  columns df !! "Age" = Some gs →
  columns df !! "Shift" = Some hs →
  (∃ mask, apply_filters df c a s = Ok (select df mask) ∧
     length mask = len df ∧
     ∀ i x y z, cs !! i = Some x → gs !! i = Some y → hs !! i = Some z →
       mask !! i =
       Some (bool_decide
               ((c = [] ∨ x ∈ c) ∧ (a = [] ∨ y ∈ a) ∧ (s = [] ∨ z ∈ s)))) ∧
  apply_filters df [] [] [] = Ok df.
Proof.
  intros Hwf Hcs Hgs Hhs. split; [by apply apply_filters_rows|done].
Qed.

(** C2, amended: with each of the three fields set to its full option list,
    the filter block returns, in table order, the rows that hold a value in
    every filtered field that has options at all; rows with a missing value
    in such a field are dropped.  It returns the full table when none of the
    three columns holds a missing value. *)
Theorem full_selection_keeps_rows_without_null (df : DataFrame) cs gs hs :
  wf df →
  columns df !! "Primary_Fur_Color" = Some cs →
  columns df !! "Age" = Some gs →
  columns df !! "Shift" = Some hs →
  ∃ co ao so mask,
    fur_colors df = Ok co ∧
    ages df = Ok ao ∧
    shifts df = Ok so ∧
    apply_filters df co ao so = Ok (select df mask) ∧
    length mask = len df ∧
    (∀ i x y z, cs !! i = Some x → gs !! i = Some y → hs !! i = Some z →
       mask !! i =
       Some (bool_decide ((co = [] ∨ x ≠ CNaN) ∧ (ao = [] ∨ y ≠ CNaN) ∧
                          (so = [] ∨ z ≠ CNaN)))) ∧
    (CNaN ∉ cs → CNaN ∉ gs → CNaN ∉ hs →
     apply_filters df co ao so = Ok df).
Proof.
  intros Hwf Hcs Hgs Hhs.
  exists (unique (dropna cs)), (unique (dropna gs)), (unique (dropna hs)).
  destruct (apply_filters_rows df (unique (dropna cs)) (unique (dropna gs))
    (unique (dropna hs)) cs gs hs Hwf Hcs Hgs Hhs) as (mask & Hap & Hlen & Hrow).
  exists mask. unfold fur_colors, ages, shifts, options, getitem.
  rewrite Hcs, Hgs, Hhs, !bind_Ok.
  do 3 (split; [done|]). split; [done|]. split; [done|].
  assert (Hopt : ∀ (l : Series) i x, l !! i = Some x →
    (unique (dropna l) = [] ∨ x ∈ unique (dropna l)) ↔
    (unique (dropna l) = [] ∨ x ≠ CNaN)).
  { intros l i x Hx. unfold unique, dropna.
    rewrite elem_of_unique_from, list_elem_of_filter.
    apply list_elem_of_lookup_2 in Hx.
    split; (intros [?|?]; [by left | right]); [tauto|].
    split; [done | apply not_elem_of_nil]. }
  split.
  - intros i x y z Hx Hy Hz. rewrite (Hrow i x y z) by done. f_equal.
    apply bool_decide_ext.
    rewrite (Hopt cs i x), (Hopt gs i y), (Hopt hs i z) by done. tauto.
  - intros Hnc Hng Hnh. rewrite Hap. f_equal.
    apply select_true; [done | done |].
    apply Forall_lookup. intros i b Hb.
    assert (i < len df) as Hi.
    { rewrite <- Hlen. by eapply lookup_lt_Some. }
    unfold len in Hi.
    destruct (lookup_lt_is_Some_2 cs i) as [x Hx];
      [by rewrite (Hwf _ _ Hcs)|].
    destruct (lookup_lt_is_Some_2 gs i) as [y Hy];
      [by rewrite (Hwf _ _ Hgs)|].
    destruct (lookup_lt_is_Some_2 hs i) as [z Hz];
      [by rewrite (Hwf _ _ Hhs)|].
    rewrite (Hrow i x y z) in Hb by done. injection Hb as <-.
    apply bool_decide_eq_true_2.
    rewrite (Hopt cs i x), (Hopt gs i y), (Hopt hs i z) by done.
    repeat split; right; intros ->;
      [apply Hnc | apply Hng | apply Hnh]; by eapply list_elem_of_lookup_2.
Qed.

(** ** Counts and sums *)

Lemma length_filter_disjoint {A} (P Q : A → Prop) `{!∀ x, Decision (P x)}
    `{!∀ x, Decision (Q x)} (l : list A) :
  (∀ x, P x → Q x → False) →
  length (filter P l) + length (filter Q l) ≤ length l.
Proof.
  intros Hdis. induction l as [|x l IH]; [done|].
  rewrite !filter_cons.
  destruct (decide (P x)) as [HP|HP], (decide (Q x)) as [HQ|HQ];
    cbn [length]; [by destruct (Hdis x) | lia..].
Qed.

(** C10: on a filtered view of a well-formed table, for any selection, the
    count of the rows whose field equals a text is the number of cells of the
    column that are exactly that text; a row whose cell is missing is masked
    out of the count, so the count and the number of missing cells together
    never exceed the number of rows.  [adult_count] and [gray_count] are the
    counts for [Age] equal to ['Adult'] and for [Primary_Fur_Color] equal to
    ['Gray']. *)
Theorem null_rows_are_never_counted (df fdf : DataFrame) c a s col v vals :
  wf df →
  apply_filters df c a s = Ok fdf →
  columns fdf !! col = Some vals →
  ∃ n, count_where_equals fdf col v = Ok n ∧
    n = length (filter (λ x, x = CStr v) vals) ∧
    n + length (filter (λ x, x = CNaN) vals) ≤ len fdf ∧
    (∀ i, vals !! i = Some CNaN → eq_str v vals !! i = Some false) ∧
    (col = "Age" → v = "Adult" → adult_count fdf = Ok n) ∧
    (col = "Primary_Fur_Color" → v = "Gray" → gray_count fdf = Ok n).
Proof.
  intros Hwf Hap Hvals.
  assert (Hwf' : wf fdf) by (by eapply wf_apply_filters).
  assert (Hlen : length vals = len fdf) by (by apply (Hwf' col)).
  exists (length (filter (λ x, x = CStr v) vals)).
  assert (Hcount : count_where_equals fdf col v =
    Ok (length (filter (λ x, x = CStr v) vals))).
  { unfold count_where_equals, getitem. rewrite Hvals, bind_Ok. f_equal.
    unfold len, select, eq_str. cbn [index].
    by apply (length_mask_select_decide (λ x, x = CStr v)). }
  split; [done|]. split; [done|]. split.
  { rewrite <- Hlen. apply length_filter_disjoint. by intros x -> ?. }
  split.
  { intros i Hi. unfold eq_str. rewrite list_lookup_fmap, Hi.
    cbn [fmap option_fmap option_map].
    by rewrite bool_decide_eq_false_2. }
  split; intros -> ->; exact Hcount.
Qed.

Lemma series_sum_bools (s : Series) :
  Forall (λ x, x = CBool true ∨ x = CBool false) s →
  series_sum s = Ok (Z.of_nat (length (filter (λ x, x = CBool true) s))).
Proof.
  induction 1 as [|x s Hx _ IH]; [done|].
  cbn [series_sum]. rewrite IH, filter_cons.
  destruct Hx as [-> | ->]; cbn [cell_num]; rewrite !bind_Ok.
  - rewrite decide_True by done. cbn [length]. f_equal. lia.
  - rewrite decide_False by done. done.
Qed.

Lemma mapM_Ok {A B} (f : A → result B) (g : A → B) (l : list A) :
  (∀ x, x ∈ l → f x = Ok (g x)) →
  mapM f l = Ok (g <$> l).
Proof.
  induction l as [|x l IH]; intros Hf; [done|].
  cbn [mapM fmap list_fmap].
  rewrite (Hf x) by apply list_elem_of_here. rewrite bind_Ok.
  rewrite IH by (intros y Hy; by apply Hf, list_elem_of_further). done.
Qed.

(** C6: on a view whose listed fields are columns of booleans, the list of
    sums has one entry per listed field, and the entry at each position is
    the number of [True] cells of the field listed at that position, whatever
    the sizes of the counts. *)
Theorem column_sums_follow_field_order (df : DataFrame) cols :
  (∀ c, c ∈ cols →
     ∃ s, columns df !! c = Some s ∧
       Forall (λ x, x = CBool true ∨ x = CBool false) s) →
  ∃ res, column_sums df cols = Ok res ∧
    length res = length cols ∧
    ∀ i c, cols !! i = Some c →
      ∃ s, columns df !! c = Some s ∧
        res !! i =
        Some (Z.of_nat (length (filter (λ x, x = CBool true) s))).
Proof.
  intros Hcols.
  set (g := λ c, Z.of_nat (length (filter (λ x, x = CBool true)
                 (default [] (columns df !! c))))).
  exists (g <$> cols). split.
  - unfold column_sums. apply mapM_Ok. intros c Hc.
    destruct (Hcols c Hc) as (s & Hs & Hbool).
    unfold sum_column, getitem, g. rewrite Hs, bind_Ok.
    by apply series_sum_bools.
  - split; [apply length_fmap|]. intros i c Hc.
    destruct (Hcols c) as (s & Hs & _); [by eapply list_elem_of_lookup_2|].
    exists s. split; [done|]. rewrite list_lookup_fmap, Hc. unfold g.
    cbn [fmap option_fmap option_map]. by rewrite Hs.
Qed.
End proofs.

(** * Further properties of the script *)

Section coverage.
Context `{FloatModel}.

(** ** The loader *)

(** X1: the loader raises exactly when a coordinate column is missing: a
    [KeyError] for [X] when the frame read has no [X] column, and for [Y]
    when it has [X] but no [Y]; no other missing column makes it fail. *)
Theorem load_data_fails_only_without_coordinates (df : DataFrame) e :
  load_data df = Err e ↔
  (columns df !! "X" = None ∧ e = KeyError "X") ∨
  (is_Some (columns df !! "X") ∧ columns df !! "Y" = None ∧
   e = KeyError "Y").
Proof.
  destruct (columns df !! "X") as [xs|] eqn:HX.
  - destruct (columns df !! "Y") as [ys|] eqn:HY.
    + destruct (load_data_columns df xs ys HX HY) as (df' & -> & _).
      split; [done|]. intros [[? _]|(_ & ? & _)]; done.
    + unfold load_data, getitem. rewrite HX, bind_Ok.
      cbn [setitem columns]. rewrite lookup_insert_ne, HY by done.
      rewrite bind_Err. split.
      * intros [= <-]. right. eauto.
      * intros [[? _]|(_ & _ & ->)]; done.
  - unfold load_data, getitem. rewrite HX, bind_Err. split.
    + intros [= <-]. by left.
    + intros [[_ ->]|([? ?] & _)]; done.
Qed.

(** X2: the loader adds and removes no column and no row: the loaded frame
    has the index and the column names of the frame read, and every column
    other than the coordinates and the declared flags is the one read. *)
Theorem load_data_keeps_rows_and_column_names (df df' : DataFrame) :
  load_data df = Ok df' →
  index df' = index df ∧
  dom (columns df') = dom (columns df) ∧
  ∀ c, c ≠ "X" → c ≠ "Y" → c ∉ bool_cols →
    columns df' !! c = columns df !! c.
Proof.
  intros Hload.
  destruct (load_data_inv _ _ Hload) as (xs & ys & HX & HY).
  destruct (load_data_columns df xs ys HX HY) as (df'' & Hload' & Hix & Hcols).
  rewrite Hload in Hload'. injection Hload' as <-.
  split; [done|]. split.
  - apply set_eq. intros c. rewrite !elem_of_dom, Hcols.
    repeat case_decide; subst; rewrite ?HX, ?HY; [by split; eauto..| |done].
    by rewrite fmap_is_Some.
  - intros c HnX HnY Hc. rewrite Hcols. by rewrite !decide_False.
Qed.

Lemma coerce_flag_idemp x : coerce_flag (coerce_flag x) = coerce_flag x.
Proof. destruct (coerce_flag_bool x) as [-> | ->]; done. Qed.

(** X3: loading a table that is already in loaded form changes nothing.  If
    the coordinate columns hold only missing values and numbers whose text
    the numeric parser reads back as the same number, the text ['nan'] does
    not parse as a number, and every declared flag column that is present
    holds booleans, then the loader returns the frame it was given. *)
Theorem load_data_fixes_loaded_tables (df : DataFrame) xs ys :
  columns df !! "X" = Some xs →
  columns df !! "Y" = Some ys →
  float_parse "nan" = None →
  Forall (λ x, x = CNaN ∨ ∃ f, x = CFloat f ∧
            float_parse (str_replace "," "." (float_str f)) = Some f) xs →
  Forall (λ x, x = CNaN ∨ ∃ f, x = CFloat f ∧
            float_parse (str_replace "," "." (float_str f)) = Some f) ys →
  (∀ c s, c ∈ bool_cols → columns df !! c = Some s →
     Forall (λ x, x = CBool true ∨ x = CBool false) s) →
  load_data df = Ok df.
Proof.
  intros HX HY Hnan Hxs Hys Hflags.
  destruct (load_data_columns df xs ys HX HY) as (df' & -> & Hix & Hcols).
  f_equal. destruct df' as [ix' cols'], df as [ix cols].
  cbn [index columns] in *. subst ix'. f_equal.
  assert (Hfix : ∀ s,
    Forall (λ x, x = CNaN ∨ ∃ f, x = CFloat f ∧
              float_parse (str_replace "," "." (float_str f)) = Some f) s →
    coerce_coordinates s = s).
  { intros s Hs. unfold coerce_coordinates, to_numeric_coerce,
      series_str_replace, astype_str.
    rewrite <- !list_fmap_compose. rewrite <- (list_fmap_id s) at 2.
    apply Forall_fmap_ext_1. eapply Forall_impl; [exact Hs|].
    assert (Hr : str_replace "," "." "nan" = "nan") by reflexivity.
    intros x [-> | (f & -> & Hf)]; unfold compose, to_numeric_coerce1, str.
    - by rewrite Hr, Hnan.
    - by rewrite Hf. }
  apply map_eq. intros c. rewrite Hcols. repeat case_decide; subst.
  - rewrite HX. f_equal. by apply Hfix.
  - rewrite HY. f_equal. by apply Hfix.
  - destruct (cols !! c) as [s|] eqn:Hs; [|done].
    cbn [fmap option_fmap option_map]. f_equal.
    unfold series_apply. rewrite <- (list_fmap_id s) at 2.
    apply Forall_fmap_ext_1. eapply Forall_impl; [by eapply Hflags|].
    by intros x [-> | ->].
  - done.
Qed.

(** X4: the decimal separator does not matter: a column of texts and the
    same column with every comma written as a period load to the same
    coordinates. *)
Theorem comma_and_period_load_alike (texts : list string) :
  coerce_coordinates (CStr <$> texts) =
  coerce_coordinates (CStr ∘ str_replace "," "." <$> texts).
Proof.
  unfold coerce_coordinates, to_numeric_coerce, series_str_replace,
    astype_str.
  rewrite <- !list_fmap_compose. apply list_fmap_ext. intros _ t _. cbn.
  by rewrite str_replace_idemp.
Qed.
(** The only bytes that [upper] turns into a given capital letter are the
    letter and its small form. *)
Lemma ascii_upper_letter_dec (a : ascii) :
  bool_decide (ascii_upper a = "T"%char) =
    bool_decide (a = "t"%char ∨ a = "T"%char) ∧
  bool_decide (ascii_upper a = "R"%char) =
    bool_decide (a = "r"%char ∨ a = "R"%char) ∧
  bool_decide (ascii_upper a = "U"%char) =
    bool_decide (a = "u"%char ∨ a = "U"%char) ∧
  bool_decide (ascii_upper a = "E"%char) =
    bool_decide (a = "e"%char ∨ a = "E"%char).
Proof.
  destruct a as [[] [] [] [] [] [] [] []]; vm_compute; repeat split.
Qed.

Lemma bool_decide_eq_iff (P Q : Prop) `{!Decision P, !Decision Q} :
  bool_decide P = bool_decide Q → P ↔ Q.
Proof.
  intros Heq. rewrite <- (bool_decide_spec P), <- (bool_decide_spec Q).
  by rewrite Heq.
Qed.

Lemma ascii_upper_letter (a : ascii) :
  (ascii_upper a = "T"%char ↔ a = "t"%char ∨ a = "T"%char) ∧
  (ascii_upper a = "R"%char ↔ a = "r"%char ∨ a = "R"%char) ∧
  (ascii_upper a = "U"%char ↔ a = "u"%char ∨ a = "U"%char) ∧
  (ascii_upper a = "E"%char ↔ a = "e"%char ∨ a = "E"%char).
Proof.
  destruct (ascii_upper_letter_dec a) as (HT & HR & HU & HE).
  split_and!; by eapply bool_decide_eq_iff.
Qed.

(** X5: the texts that the loader reads as a true flag are exactly the
    sixteen spellings of the word true in small and capital letters; a text
    with a space, a digit or any other word is read as false. *)
Theorem flag_true_spellings (s : string) :
  coerce_flag (CStr s) = CBool true ↔
  ∃ a b c d, s = String a (String b (String c (String d EmptyString))) ∧
    (a = "t"%char ∨ a = "T"%char) ∧ (b = "r"%char ∨ b = "R"%char) ∧
    (c = "u"%char ∨ c = "U"%char) ∧ (d = "e"%char ∨ d = "E"%char).
Proof.
  unfold coerce_flag. cbn [str].
  assert (Hup : upper s = "TRUE" ↔
    ∃ a b c d, s = String a (String b (String c (String d EmptyString))) ∧
      ascii_upper a = "T"%char ∧ ascii_upper b = "R"%char ∧
      ascii_upper c = "U"%char ∧ ascii_upper d = "E"%char).
  { split.
    - destruct s as [|a [|b [|c [|d [|? ?]]]]]; cbn [upper]; try done.
      intros [= Ha Hb Hc Hd]. by exists a, b, c, d.
    - intros (a & b & c & d & -> & Ha & Hb & Hc & Hd). cbn [upper].
      by rewrite Ha, Hb, Hc, Hd. }
  assert (Hflag : (if decide (upper s = "TRUE") then CBool true
                   else CBool false) = CBool true ↔ upper s = "TRUE").
  { case_decide; split; done. }
  rewrite Hflag, Hup.
  split; intros (a & b & c & d & -> & Ha & Hb & Hc & Hd); exists a, b, c, d;
    (split; [done|]);
    destruct (ascii_upper_letter a) as (HT & _);
    destruct (ascii_upper_letter b) as (_ & HR & _);
    destruct (ascii_upper_letter c) as (_ & _ & HU & _);
    destruct (ascii_upper_letter d) as (_ & _ & _ & HE);
    (split_and!; [by apply HT | by apply HR | by apply HU | by apply HE]).
Qed.
(** ** The filter block *)

Lemma mask_select_sublist {A} mask (l : list A) :
  mask_select mask l `sublist_of` l.
Proof.
  revert l. induction mask as [|b mask IH]; intros [|x l]; cbn [mask_select];
    try apply sublist_nil_l.
  destruct b; [by apply sublist_skip | by apply sublist_cons].
Qed.

Lemma mask_select_false {A} mask (l : list A) :
  Forall (λ b, b = false) mask → mask_select mask l = [].
Proof.
  intros Hall. revert l. induction Hall as [|b mask -> _ IH]; intros [|x l];
    cbn [mask_select]; auto.
Qed.

Lemma Forall_mask_select_isin selected (s : Series) :
  Forall (λ x, x ∈ selected) (mask_select (isin selected s) s).
Proof.
  unfold isin. induction s as [|x s IH]; cbn [fmap list_fmap mask_select];
    [constructor|].
  case_bool_decide; [by constructor | done].
Qed.

Lemma Forall_sublist {A} (P : A → Prop) (l k : list A) :
  l `sublist_of` k → Forall P k → Forall P l.
Proof.
  intros Hsub Hk. apply Forall_forall. intros x Hx.
  rewrite Forall_forall in Hk. apply Hk. by eapply elem_of_sublist.
Qed.

Lemma subframe_refl (df : DataFrame) : subframe df df.
Proof.
  split; [done|]. intros c. destruct (columns df !! c); [|done]. eauto.
Qed.

Lemma subframe_trans (d1 d2 d3 : DataFrame) :
  subframe d1 d2 → subframe d2 d3 → subframe d1 d3.
Proof.
  intros [Hix1 Hc1] [Hix2 Hc2]. split; [by etrans|]. intros c.
  specialize (Hc1 c). specialize (Hc2 c).
  destruct (columns d3 !! c) as [s3|].
  - destruct Hc2 as (s2 & Hs2 & Hsub2). rewrite Hs2 in Hc1.
    destruct Hc1 as (s1 & Hs1 & Hsub1). exists s1. split; [done | by etrans].
  - by rewrite Hc2 in Hc1.
Qed.

Lemma subframe_select (df : DataFrame) mask : subframe (select df mask) df.
Proof.
  split; [apply mask_select_sublist|]. intros c. unfold select.
  cbn [columns]. rewrite lookup_fmap.
  destruct (columns df !! c) as [s|]; [|done].
  eexists. split; [done | apply mask_select_sublist].
Qed.

Lemma subframe_lookup_None (d df : DataFrame) c :
  subframe d df → columns d !! c = None ↔ columns df !! c = None.
Proof.
  intros [_ Hc]. specialize (Hc c). destruct (columns df !! c).
  - destruct Hc as (s' & -> & _). done.
  - done.
Qed.

Lemma subframe_Forall (d df : DataFrame) c (P : cell → Prop) s :
  subframe d df → columns df !! c = Some s → Forall P s →
  ∃ s', columns d !! c = Some s' ∧ Forall P s'.
Proof.
  intros [_ Hc] Hs HP. specialize (Hc c). rewrite Hs in Hc.
  destruct Hc as (s' & Hs' & Hsub). exists s'. split; [done|].
  by eapply Forall_sublist.
Qed.

(** One filter step: either it raises for its own column, or it returns
    some of the rows, all of them holding a selected value. *)
Lemma filter_isin_step (df : DataFrame) col selected :
  (selected ≠ [] ∧ columns df !! col = None ∧
   filter_isin df col selected = Err (KeyError col)) ∨
  ((selected = [] ∨ is_Some (columns df !! col)) ∧
   ∃ d, filter_isin df col selected = Ok d ∧ subframe d df ∧
     (selected ≠ [] →
      ∃ vals, columns d !! col = Some vals ∧
        Forall (λ x, x ∈ selected) vals)).
Proof.
  unfold filter_isin, getitem. destruct selected as [|v selected].
  - right. split; [by left|]. exists df. cbn [truthy].
    split; [done|]. split; [apply subframe_refl | done].
  - cbn [truthy]. destruct (columns df !! col) as [s|] eqn:Hs.
    + right. split; [by right|]. eexists. rewrite bind_Ok.
      split; [done|]. split; [apply subframe_select|]. intros _.
      exists (mask_select (isin (v :: selected) s) s). split.
      * unfold select. cbn [columns]. by rewrite lookup_fmap, Hs.
      * apply Forall_mask_select_isin.
    + left. done.
Qed.

(** What a returned view satisfies. *)
Lemma apply_filters_Ok (df fdf : DataFrame) c a s :
  apply_filters df c a s = Ok fdf →
  subframe fdf df ∧
  (c ≠ [] → ∃ vals, columns fdf !! "Primary_Fur_Color" = Some vals ∧
     Forall (λ x, x ∈ c) vals) ∧
  (a ≠ [] → ∃ vals, columns fdf !! "Age" = Some vals ∧
     Forall (λ x, x ∈ a) vals) ∧
  (s ≠ [] → ∃ vals, columns fdf !! "Shift" = Some vals ∧
     Forall (λ x, x ∈ s) vals).
Proof.
  unfold apply_filters, copy.
  destruct (filter_isin_step df "Primary_Fur_Color" c)
    as [(_ & _ & ->)|(_ & d1 & -> & Hsub1 & Hc)]; [done|]. rewrite bind_Ok.
  destruct (filter_isin_step d1 "Age" a)
    as [(_ & _ & ->)|(_ & d2 & -> & Hsub2 & Ha)]; [done|]. rewrite bind_Ok.
  destruct (filter_isin_step d2 "Shift" s)
    as [(_ & _ & ->)|(_ & d3 & -> & Hsub3 & Hs)]; [done|].
  intros [= <-]. split; [eauto using subframe_trans|].
  split; [|split; [|done]].
  - intros Hne. destruct (Hc Hne) as (v1 & Hv1 & HF1).
    destruct (subframe_Forall d2 d1 _ _ _ Hsub2 Hv1 HF1) as (v2 & Hv2 & HF2).
    by apply (subframe_Forall d3 d2 _ _ _ Hsub3 Hv2 HF2).
  - intros Hne. destruct (Ha Hne) as (v2 & Hv2 & HF2).
    by apply (subframe_Forall d3 d2 _ _ _ Hsub3 Hv2 HF2).
Qed.

(** X6: every row of a filtered view passes the filters: for each of the
    three fields whose selection is not empty, the view has the column and
    every cell of it is one of the selected values. *)
Theorem filtered_rows_hold_selected_values (df fdf : DataFrame) c a s :
  apply_filters df c a s = Ok fdf →
  (c ≠ [] → ∃ vals, columns fdf !! "Primary_Fur_Color" = Some vals ∧
     Forall (λ x, x ∈ c) vals) ∧
  (a ≠ [] → ∃ vals, columns fdf !! "Age" = Some vals ∧
     Forall (λ x, x ∈ a) vals) ∧
  (s ≠ [] → ∃ vals, columns fdf !! "Shift" = Some vals ∧
     Forall (λ x, x ∈ s) vals).
Proof. intros Hap. by apply apply_filters_Ok in Hap as [_ ?]. Qed.

(** X7: a filtered view is a part of the table: its row labels are some of
    the row labels of the table in the same order, it never has more rows,
    it has the same column names, and each of its columns holds some of the
    cells of the table's column in the same order. *)
Theorem filtered_view_is_part_of_the_table (df fdf : DataFrame) c a s :
  apply_filters df c a s = Ok fdf →
  index fdf `sublist_of` index df ∧
  len fdf ≤ len df ∧
  dom (columns fdf) = dom (columns df) ∧
  ∀ col vals, columns df !! col = Some vals →
    ∃ vals', columns fdf !! col = Some vals' ∧ vals' `sublist_of` vals.
Proof.
  intros Hap. apply apply_filters_Ok in Hap as [Hsub _].
  split; [apply Hsub|]. split; [apply sublist_length, Hsub|]. split.
  - apply set_eq. intros k. rewrite !elem_of_dom, <- !not_eq_None_Some.
    by rewrite (subframe_lookup_None _ _ k Hsub).
  - intros col vals Hvals. destruct Hsub as [_ Hc]. specialize (Hc col).
    by rewrite Hvals in Hc.
Qed.

(** X8: the filter block raises only for a field whose selection is not
    empty and whose column the table lacks, and then with a [KeyError] for
    the first such field in the order fur color, age, shift; a field with an
    empty selection never makes it fail, whether its column exists or not. *)
Theorem apply_filters_fails_only_on_missing_selected_column
    (df : DataFrame) c a s e :
  apply_filters df c a s = Err e ↔
  (c ≠ [] ∧ columns df !! "Primary_Fur_Color" = None ∧
   e = KeyError "Primary_Fur_Color") ∨
  ((c = [] ∨ is_Some (columns df !! "Primary_Fur_Color")) ∧
   a ≠ [] ∧ columns df !! "Age" = None ∧ e = KeyError "Age") ∨
  ((c = [] ∨ is_Some (columns df !! "Primary_Fur_Color")) ∧
   (a = [] ∨ is_Some (columns df !! "Age")) ∧
   s ≠ [] ∧ columns df !! "Shift" = None ∧ e = KeyError "Shift").
Proof.
  assert (Hsome : ∀ (o : option Series), is_Some o → o = None → False).
  { by intros o [? ->]. }
  unfold apply_filters, copy.
  destruct (filter_isin_step df "Primary_Fur_Color" c)
    as [(Hc & Hcn & ->)|(Hc & d1 & -> & Hsub1 & _)].
  { rewrite bind_Err. split; [intros [= <-]; by left|].
    intros [(_ & _ & ->)|[([?|Hp] & _)|([?|Hp] & _)]]; try done;
      by destruct (Hsome _ Hp Hcn). }
  rewrite bind_Ok.
  destruct (filter_isin_step d1 "Age" a)
    as [(Ha & Han & ->)|(Ha & d2 & -> & Hsub2 & _)].
  { rewrite bind_Err. rewrite (subframe_lookup_None _ _ _ Hsub1) in Han.
    split; [intros [= <-]; right; by left|].
    intros [(? & Hn & _)|[(_ & _ & _ & ->)|(_ & [?|Hp] & _)]]; try done.
    - destruct Hc as [?|Hp]; [done | by destruct (Hsome _ Hp Hn)].
    - by destruct (Hsome _ Hp Han). }
  rewrite bind_Ok.
  assert (Ha' : a = [] ∨ is_Some (columns df !! "Age")).
  { destruct Ha as [?|Ha]; [by left|right].
    rewrite <- not_eq_None_Some in *.
    by rewrite <- (subframe_lookup_None _ _ _ Hsub1). }
  destruct (filter_isin_step d2 "Shift" s)
    as [(Hs & Hsn & ->)|(Hs & d3 & -> & _)].
  { rewrite (subframe_lookup_None _ _ _ Hsub2),
      (subframe_lookup_None _ _ _ Hsub1) in Hsn.
    split; [intros [= <-]; right; by right|].
    intros [(? & Hn & _)|[(_ & ? & Hn & _)|(_ & _ & _ & _ & ->)]]; try done.
    - destruct Hc as [?|Hp]; [done | by destruct (Hsome _ Hp Hn)].
    - destruct Ha' as [?|Hp]; [done | by destruct (Hsome _ Hp Hn)]. }
  split; [done|].
  assert (Hs' : s = [] ∨ is_Some (columns df !! "Shift")).
  { destruct Hs as [?|Hs]; [by left|right].
    rewrite <- not_eq_None_Some in *.
    by rewrite <- (subframe_lookup_None _ _ _ Hsub1),
      <- (subframe_lookup_None _ _ _ Hsub2). }
  intros [(? & Hn & _)|[(_ & ? & Hn & _)|(_ & _ & ? & Hn & _)]].
  - destruct Hc as [?|Hp]; [done | by destruct (Hsome _ Hp Hn)].
  - destruct Ha' as [?|Hp]; [done | by destruct (Hsome _ Hp Hn)].
  - destruct Hs' as [?|Hp]; [done | by destruct (Hsome _ Hp Hn)].
Qed.
Lemma zip_with_andb_comm (m1 m2 : list bool) :
  zip_with andb m1 m2 = zip_with andb m2 m1.
Proof.
  revert m2. induction m1 as [|b1 m1 IH]; intros [|b2 m2]; try done.
  cbn [zip_with]. by rewrite IH, andb_comm.
Qed.

(** X9: the order of the filter steps does not matter: on a well-formed
    table, filtering one column and then another gives the same view as
    filtering them the other way round. *)
Theorem filter_steps_commute (df : DataFrame) col1 col2 sel1 sel2 s1 s2 :
  wf df →
  columns df !! col1 = Some s1 →
  columns df !! col2 = Some s2 →
  filter_isin df col1 sel1 ≫= (λ d, filter_isin d col2 sel2) =
  filter_isin df col2 sel2 ≫= (λ d, filter_isin d col1 sel1).
Proof.
  intros Hwf Hs1 Hs2.
  rewrite (filter_isin_admits df col1 sel1 s1), bind_Ok by done.
  rewrite (filter_isin_admits df col2 sel2 s2), bind_Ok by done.
  rewrite (filter_isin_admits _ col2 sel2 (mask_select (admits sel1 s1) s2)).
  2: by apply wf_select.
  2: { unfold select. cbn [columns]. by rewrite lookup_fmap, Hs2. }
  rewrite (filter_isin_admits _ col1 sel1 (mask_select (admits sel2 s2) s1)).
  2: by apply wf_select.
  2: { unfold select. cbn [columns]. by rewrite lookup_fmap, Hs1. }
  rewrite !admits_mask_select, !select_select.
  by rewrite zip_with_andb_comm.
Qed.

Lemma filter_isin_fixed (d : DataFrame) col selected :
  wf d →
  (selected ≠ [] →
   ∃ vals, columns d !! col = Some vals ∧ Forall (λ x, x ∈ selected) vals) →
  filter_isin d col selected = Ok d.
Proof.
  intros Hwf Hsel. destruct selected as [|v selected]; [done|].
  destruct Hsel as (vals & Hvals & Hall); [done|].
  rewrite (filter_isin_admits d col _ vals) by done. f_equal.
  apply select_true; [done| |].
  - unfold admits, len. rewrite length_fmap. by apply (Hwf col).
  - unfold admits. apply Forall_fmap. eapply Forall_impl; [exact Hall|].
    intros x Hx. apply bool_decide_eq_true_2. by right.
Qed.

(** X10: filtering is idempotent: applying the filter block with the same
    selections to the view it returned gives that view again. *)
Theorem filtering_twice_changes_nothing (df fdf : DataFrame) c a s :
  wf df →
  apply_filters df c a s = Ok fdf →
  apply_filters fdf c a s = Ok fdf.
Proof.
  intros Hwf Hap.
  assert (Hwf' : wf fdf) by (by eapply wf_apply_filters).
  apply apply_filters_Ok in Hap as (_ & Hc & Ha & Hs).
  unfold apply_filters, copy.
  rewrite (filter_isin_fixed fdf _ c), bind_Ok by done.
  rewrite (filter_isin_fixed fdf _ a), bind_Ok by done.
  by apply filter_isin_fixed.
Qed.

Lemma filter_isin_ext (df : DataFrame) col sel sel' :
  (∀ x, x ∈ sel ↔ x ∈ sel') →
  filter_isin df col sel = filter_isin df col sel'.
Proof.
  intros Hmem. unfold filter_isin.
  assert (Htruthy : truthy sel = truthy sel').
  { destruct sel as [|x sel], sel' as [|x' sel']; try done.
    - pose proof (proj2 (Hmem x') (list_elem_of_here _ _)) as Hx.
      by apply elem_of_nil in Hx.
    - pose proof (proj1 (Hmem x) (list_elem_of_here _ _)) as Hx.
      by apply elem_of_nil in Hx. }
  rewrite Htruthy. destruct (truthy sel'); [|done].
  destruct (getitem df col) as [s|]; [|done]. rewrite !bind_Ok. do 2 f_equal.
  unfold isin. apply list_fmap_ext. intros _ x _. by apply bool_decide_ext.
Qed.

(** X11: a selection acts as a set: two selections with the same members,
    whatever their order and repetitions, give the same result. *)
Theorem selection_order_and_repeats_do_not_matter
    (df : DataFrame) c a s c' a' s' :
  (∀ x, x ∈ c ↔ x ∈ c') →
  (∀ x, x ∈ a ↔ x ∈ a') →
  (∀ x, x ∈ s ↔ x ∈ s') →
  apply_filters df c a s = apply_filters df c' a' s'.
Proof.
  intros Hc Ha Hs. unfold apply_filters, copy.
  rewrite (filter_isin_ext df _ c c') by done.
  destruct (filter_isin df _ c') as [d1|]; [|done]. rewrite !bind_Ok.
  rewrite (filter_isin_ext d1 _ a a') by done.
  destruct (filter_isin d1 _ a') as [d2|]; [|done]. rewrite !bind_Ok.
  by apply filter_isin_ext.
Qed.

(** ** The headline counts *)

Lemma count_where_equals_none (fdf : DataFrame) col v vals :
  columns fdf !! col = Some vals →
  CStr v ∉ vals →
  count_where_equals fdf col v = Ok 0.
Proof.
  intros Hvals Hv. unfold count_where_equals, getitem.
  rewrite Hvals, bind_Ok. f_equal. unfold len, select. cbn [index].
  rewrite mask_select_false; [done|]. unfold eq_str.
  apply Forall_fmap, Forall_forall. intros x Hx.
  apply bool_decide_eq_false_2. by intros ->.
Qed.

Lemma count_where_equals_all (fdf : DataFrame) col v vals :
  wf fdf →
  columns fdf !! col = Some vals →
  Forall (λ x, x = CStr v) vals →
  count_where_equals fdf col v = Ok (len fdf).
Proof.
  intros Hwf Hvals Hall. unfold count_where_equals, getitem.
  rewrite Hvals, bind_Ok. f_equal. unfold len, select. cbn [index].
  rewrite mask_select_true; [done| |].
  - unfold eq_str. rewrite length_fmap. by apply (Hwf col).
  - unfold eq_str. apply Forall_fmap. eapply Forall_impl; [exact Hall|].
    intros x ->. by apply bool_decide_eq_true_2.
Qed.

(** X12: the adult count follows the age selection: when the age selection
    is not empty and does not contain ['Adult'] the count is zero, and when
    it contains nothing but ['Adult'] the count is the number of rows of the
    view. *)
Theorem adult_count_follows_age_selection (df fdf : DataFrame) c a s :
  wf df →
  apply_filters df c a s = Ok fdf →
  a ≠ [] →
  (CStr "Adult" ∉ a → adult_count fdf = Ok 0) ∧
  ((∀ x, x ∈ a → x = CStr "Adult") → adult_count fdf = Ok (len fdf)).
Proof.
  intros Hwf Hap Hne.
  assert (Hwf' : wf fdf) by (by eapply wf_apply_filters).
  apply apply_filters_Ok in Hap as (_ & _ & Ha & _).
  destruct (Ha Hne) as (vals & Hvals & Hall). split.
  - intros Hnot. apply (count_where_equals_none _ _ _ vals); [done|].
    intros Hin. rewrite Forall_forall in Hall. by apply Hnot, Hall.
  - intros Honly. apply (count_where_equals_all _ _ _ vals); [done..|].
    eapply Forall_impl; [exact Hall|]. done.
Qed.
(** ** Sums over the loaded and filtered table *)

Lemma mapM_Err {A B} (f : A → result B) (l : list A) x e :
  x ∈ l → f x = Err e → ∃ e', mapM f l = Err e'.
Proof.
  intros Hx Hf. induction l as [|y l IH]; [by apply elem_of_nil in Hx|].
  cbn [mapM]. destruct (f y) as [b|e'] eqn:Hy; [|by eexists].
  rewrite bind_Ok. apply elem_of_cons in Hx as [->|Hx]; [congruence|].
  destruct (IH Hx) as (e' & ->). by eexists.
Qed.

Lemma series_sum_bounds (s : Series) :
  Forall (λ x, x = CBool true ∨ x = CBool false) s →
  ∃ n, series_sum s = Ok n ∧ (0 ≤ n ≤ Z.of_nat (length s))%Z.
Proof.
  intros Hs. eexists. split; [by apply series_sum_bools|].
  pose proof (length_filter (λ x, x = CBool true) s). lia.
Qed.

(** The flag columns of a view filtered from a loaded table. *)
Lemma loaded_filtered_flag (df df' fdf : DataFrame) c a s col :
  load_data df = Ok df' →
  apply_filters df' c a s = Ok fdf →
  col ∈ bool_cols →
  match columns df !! col with
  | Some _ =>
      ∃ vals, columns fdf !! col = Some vals ∧
        Forall (λ x, x = CBool true ∨ x = CBool false) vals
  | None => columns fdf !! col = None
  end.
Proof.
  intros Hload Hap Hcol.
  destruct (load_data_inv _ _ Hload) as (xs & ys & HX & HY).
  destruct (load_data_columns df xs ys HX HY) as (df'' & Hload' & _ & Hcols).
  rewrite Hload in Hload'. injection Hload' as <-.
  apply apply_filters_Ok in Hap as [Hsub _].
  specialize (Hcols col).
  rewrite decide_False in Hcols by (intros ->; revert Hcol; compute_done).
  rewrite decide_False in Hcols by (intros ->; revert Hcol; compute_done).
  rewrite decide_True in Hcols by done.
  destruct (columns df !! col) as [raw|];
    cbn [fmap option_fmap option_map] in Hcols.
  - eapply subframe_Forall; [done..|]. unfold series_apply.
    apply Forall_fmap, Forall_forall. intros x _. apply coerce_flag_bool.
  - by apply (subframe_lookup_None _ _ _ Hsub).
Qed.

(** X13: from a well-formed source that has the listed flag columns, the
    sums of the charts never fail after loading and filtering: there is one
    sum per listed field, and each lies between zero and the number of rows
    of the view. *)
Theorem flag_sums_are_bounded_by_the_row_count
    (df df' fdf : DataFrame) c a s cols :
  wf df →
  load_data df = Ok df' →
  apply_filters df' c a s = Ok fdf →
  (∀ col, col ∈ cols → col ∈ bool_cols ∧ is_Some (columns df !! col)) →
  ∃ res, column_sums fdf cols = Ok res ∧
    length res = length cols ∧
    Forall (λ n, (0 ≤ n ≤ Z.of_nat (len fdf))%Z) res.
Proof.
  intros Hwf Hload Hap Hcols.
  assert (Hwf' : wf fdf).
  { eapply wf_apply_filters; [|done]. by eapply wf_load_data. }
  assert (Hsum : ∀ col, col ∈ cols →
    ∃ n, sum_column fdf col = Ok n ∧ (0 ≤ n ≤ Z.of_nat (len fdf))%Z).
  { intros col Hin. destruct (Hcols col Hin) as [Hflag [raw Hraw]].
    pose proof (loaded_filtered_flag _ _ _ _ _ _ col Hload Hap Hflag) as Hv.
    rewrite Hraw in Hv. destruct Hv as (vals & Hvals & Hbool).
    destruct (series_sum_bounds vals Hbool) as (n & Hn & Hle).
    exists n. unfold sum_column, getitem. rewrite Hvals, bind_Ok.
    split; [done|]. unfold len. by rewrite <- (Hwf' col vals Hvals). }
  clear Hcols. unfold column_sums.
  induction cols as [|col cols IH].
  - exists []. by repeat split.
  - destruct (Hsum col) as (n & Hn & Hle); [apply list_elem_of_here|].
    destruct IH as (res & Hres & Hlen & Hall).
    { intros col' Hin. by apply Hsum, list_elem_of_further. }
    exists (n :: res). cbn [mapM]. rewrite Hn, bind_Ok, Hres, bind_Ok.
    split; [done|]. split; [cbn [length]; by rewrite Hlen|].
    by constructor.
Qed.

(** X14: a declared flag column that the source lacks is tolerated by the
    loader but not by the sums: after loading and filtering, the sum of that
    column raises a [KeyError] for it, and so does every list of sums that
    names it. *)
Theorem sums_fail_on_a_flag_missing_from_the_source
    (df df' fdf : DataFrame) c a s col :
  load_data df = Ok df' →
  apply_filters df' c a s = Ok fdf →
  col ∈ bool_cols →
  columns df !! col = None →
  sum_column fdf col = Err (KeyError col) ∧
  (col = "Eating" → eating_count fdf = Err (KeyError "Eating")) ∧
  ∀ cols, col ∈ cols → ∃ e, column_sums fdf cols = Err e.
Proof.
  intros Hload Hap Hcol Hnone.
  pose proof (loaded_filtered_flag _ _ _ _ _ _ col Hload Hap Hcol) as Hv.
  rewrite Hnone in Hv.
  assert (Hsum : sum_column fdf col = Err (KeyError col)).
  { unfold sum_column, getitem. by rewrite Hv. }
  split; [done|]. split; [by intros ->|].
  intros cols Hin. unfold column_sums. by eapply mapM_Err.
Qed.
(** ** The rows of the map *)

Lemma zip_with_andb_true_r (m : list bool) :
  zip_with andb m (replicate (length m) true) = m.
Proof.
  induction m as [|b m IH]; [done|]. cbn [length replicate zip_with].
  by rewrite IH, andb_true_r.
Qed.

Lemma notna_all_coordinates (fdf : DataFrame) xs ys :
  wf fdf →
  columns fdf !! "X" = Some xs →
  columns fdf !! "Y" = Some ys →
  notna_all fdf ["X"; "Y"] = Ok (zip_with andb (notna xs) (notna ys)).
Proof.
  intros Hwf HX HY. cbn [notna_all]. unfold getitem.
  rewrite HX, HY, !bind_Ok. do 2 f_equal.
  rewrite <- (zip_with_andb_true_r (notna ys)) at 2. do 2 f_equal.
  unfold notna. rewrite length_fmap. symmetry. by apply (Hwf "Y").
Qed.

(** What the mask of the map keeps, on two columns and a list of the same
    length. *)
Lemma coordinate_mask_rows {A} (xs ys : Series) (l : list A) :
  length xs = length l →
  length ys = length l →
  (CNaN ∉ mask_select (zip_with andb (notna xs) (notna ys)) xs) ∧
  (CNaN ∉ mask_select (zip_with andb (notna xs) (notna ys)) ys) ∧
  length (mask_select (zip_with andb (notna xs) (notna ys)) l) =
  length (filter (λ p, p.1 ≠ CNaN ∧ p.2 ≠ CNaN) (zip xs ys)).
Proof.
  revert ys l. induction xs as [|x xs IH]; intros [|y ys] [|z l] Hx Hy;
    try done.
  - repeat split; apply not_elem_of_nil.
  - injection Hx as Hx. injection Hy as Hy.
    destruct (IH ys l Hx Hy) as (IHx & IHy & IHl).
    unfold notna in *. cbn [fmap list_fmap zip_with mask_select zip].
    rewrite filter_cons. cbn [fst snd].
    destruct (decide (x ≠ CNaN ∧ y ≠ CNaN)) as [[Hnx Hny]|Hn].
    + rewrite !bool_decide_eq_true_2 by done. cbn [andb length].
      rewrite !not_elem_of_cons. rewrite IHl. done.
    + assert (bool_decide (x ≠ CNaN) && bool_decide (y ≠ CNaN) = false)
        as ->; [|done].
      apply andb_false_iff. rewrite !bool_decide_eq_false.
      destruct (decide (x = CNaN)); [left | right]; tauto.
Qed.

Lemma length_filter_zero {A} (P : A → Prop) `{!∀ x, Decision (P x)}
    (l : list A) :
  length (filter P l) = 0 ↔ Forall (λ x, ¬ P x) l.
Proof.
  induction l as [|x l IH]; [by split; [constructor|]|].
  rewrite filter_cons, Forall_cons. destruct (decide (P x)); cbn [length].
  - split; [done | tauto].
  - rewrite IH. tauto.
Qed.

(** X15: on a well-formed view with the two coordinate columns, the frame
    of the map is the selection of the rows of the view that hold both
    coordinates: it is the view under a mask with one entry per row, true
    exactly on the rows whose two coordinates are present.  So it keeps the
    order of the view, its coordinate columns hold no missing value, and it
    has one row per row of the view with both coordinates present. *)
Theorem map_rows_hold_both_coordinates (fdf : DataFrame) xs ys :
  wf fdf →
  columns fdf !! "X" = Some xs →
  columns fdf !! "Y" = Some ys →
  ∃ mask xs' ys', map_df fdf = Ok (select fdf mask) ∧
    length mask = len fdf ∧
    (∀ i x y, xs !! i = Some x → ys !! i = Some y →
       mask !! i = Some (bool_decide (x ≠ CNaN ∧ y ≠ CNaN))) ∧
    columns (select fdf mask) !! "X" = Some xs' ∧ (CNaN ∉ xs') ∧
    columns (select fdf mask) !! "Y" = Some ys' ∧ (CNaN ∉ ys') ∧
    index (select fdf mask) `sublist_of` index fdf ∧
    len (select fdf mask) =
    length (filter (λ p, p.1 ≠ CNaN ∧ p.2 ≠ CNaN) (zip xs ys)).
Proof.
  intros Hwf HX HY.
  destruct (coordinate_mask_rows xs ys (index fdf)) as (Hnx & Hny & Hlen);
    [by apply (Hwf "X") | by apply (Hwf "Y") |].
  exists (zip_with andb (notna xs) (notna ys)). eexists _, _.
  unfold map_df, dropna_subset.
  rewrite (notna_all_coordinates fdf xs ys), bind_Ok by done.
  split; [done|]. split.
  { unfold notna, len. rewrite length_zip_with, !length_fmap.
    rewrite (Hwf _ _ HX), (Hwf _ _ HY). lia. }
  split.
  { intros i x y Hx Hy. unfold notna.
    rewrite lookup_zip_with, !list_lookup_fmap, Hx, Hy.
    cbn [fmap option_fmap option_map mbind option_bind]. f_equal.
    by rewrite bool_decide_and. }
  unfold select, len. cbn [columns index].
  rewrite !lookup_fmap, HX, HY. cbn [fmap option_fmap option_map].
  split; [done|]. split; [done|]. split; [done|]. split; [done|].
  split; [apply mask_select_sublist | done].
Qed.

(** X16: on a well-formed view with the two coordinate columns, the test
    that chooses between the map and the notice returns, and it chooses the
    notice exactly when every row of the view lacks a coordinate, which
    includes the view without rows. *)
Theorem no_location_data_exactly_without_positions
    (fdf : DataFrame) xs ys :
  wf fdf →
  columns fdf !! "X" = Some xs →
  columns fdf !! "Y" = Some ys →
  ∃ b, has_location_data fdf = Ok b ∧
    (b = false ↔
     ∀ i x y, xs !! i = Some x → ys !! i = Some y → x = CNaN ∨ y = CNaN).
Proof.
  intros Hwf HX HY.
  destruct (coordinate_mask_rows xs ys (index fdf)) as (_ & _ & Hlen);
    [by apply (Hwf "X") | by apply (Hwf "Y") |].
  eexists. unfold has_location_data, map_df, dropna_subset.
  rewrite (notna_all_coordinates fdf xs ys), !bind_Ok by done.
  split; [done|]. unfold len, select. cbn [index]. rewrite Hlen.
  rewrite bool_decide_eq_false.
  assert (Hzero : ∀ n, ¬ 0 < n ↔ n = 0) by (intros; lia).
  rewrite Hzero, length_filter_zero, Forall_lookup. split.
  - intros Hall i x y Hx Hy. specialize (Hall i (x, y)).
    destruct (decide (x = CNaN)) as [?|Hnx]; [by left|].
    destruct (decide (y = CNaN)) as [?|Hny]; [by right|].
    destruct Hall; [|done].
    apply lookup_zip_with_Some. by exists x, y.
  - intros Hall i [x y] Hxy.
    apply lookup_zip_with_Some in Hxy as (x' & y' & [= <- <-] & Hx & Hy).
    cbn [fst snd]. destruct (Hall i x y Hx Hy); tauto.
Qed.
(** ** The data table *)

Lemma getitems_Ok (df : DataFrame) cols :
  NoDup cols →
  (∀ c, c ∈ cols → is_Some (columns df !! c)) →
  ∃ t, getitems df cols = Ok t ∧ index t = index df ∧
    dom (columns t) = list_to_set cols ∧
    ∀ c, c ∈ cols → columns t !! c = columns df !! c.
Proof.
  intros Hnd Hcols.
  set (g := λ c, (c, default [] (columns df !! c))).
  assert (Hfst : (g <$> cols).*1 = cols).
  { rewrite <- list_fmap_compose. rewrite <- (list_fmap_id cols) at 2.
    by apply list_fmap_ext. }
  eexists. unfold getitems.
  rewrite (mapM_Ok _ g), bind_Ok.
  2: { intros c Hc. destruct (Hcols c Hc) as [s Hs]. unfold getitem, g.
       by rewrite Hs. }
  split; [done|]. split; [done|]. cbn [columns]. split.
  - by rewrite dom_list_to_map_L, Hfst.
  - intros c Hc. destruct (Hcols c Hc) as [s Hs]. rewrite Hs.
    apply elem_of_list_to_map_1; [by rewrite Hfst|].
    apply list_elem_of_fmap. exists c. unfold g. by rewrite Hs.
Qed.

Lemma table_columns_NoDup : NoDup table_columns.
Proof. compute_done. Qed.

(** X17: when the view has the eight columns of the data table, the table
    is built from exactly those columns and from the first hundred rows of
    the view: it has the first hundred row labels, [min 100 (len view)]
    rows, and each of its columns is the first hundred cells of the column
    of the view; a well-formed view of at most a hundred rows is shown whole. *)
Theorem raw_data_shows_the_first_hundred_rows (fdf : DataFrame) :
  (∀ c, c ∈ table_columns → is_Some (columns fdf !! c)) →
  ∃ t, raw_data fdf = Ok t ∧
    index t = take 100 (index fdf) ∧
    len t = min 100 (len fdf) ∧
    dom (columns t) = list_to_set table_columns ∧
    (∀ c, c ∈ table_columns →
       columns t !! c = take 100 <$> columns fdf !! c) ∧
    (wf fdf → len fdf ≤ 100 →
     index t = index fdf ∧
     ∀ c, c ∈ table_columns → columns t !! c = columns fdf !! c).
Proof.
  intros Hcols.
  destruct (getitems_Ok fdf table_columns table_columns_NoDup Hcols)
    as (t & Ht & Hix & Hdom & Hlook).
  exists (head 100 t). unfold raw_data. rewrite Ht, bind_Ok.
  split; [done|]. unfold head, len. cbn [index columns].
  split; [by rewrite Hix|]. split; [by rewrite length_take, Hix|].
  split; [by rewrite dom_fmap_L|]. split.
  - intros c Hc. by rewrite lookup_fmap, Hlook.
  - intros Hwf Hle. rewrite Hix. split; [by apply take_ge|].
    intros c Hc. rewrite lookup_fmap, Hlook by done.
    destruct (columns fdf !! c) as [s|] eqn:Hs; [|done].
    cbn [fmap option_fmap option_map]. f_equal. apply take_ge.
    by rewrite (Hwf c s Hs).
Qed.

(** X18: the data table fails exactly when the view lacks one of its eight
    columns. *)
Theorem raw_data_fails_exactly_on_a_missing_column (fdf : DataFrame) :
  (∃ e, raw_data fdf = Err e) ↔
  ∃ c, c ∈ table_columns ∧ columns fdf !! c = None.
Proof.
  split.
  - intros [e He].
    destruct (decide (Forall (λ c, is_Some (columns fdf !! c))
                        table_columns)) as [Hall|Hex].
    + rewrite Forall_forall in Hall.
      destruct (getitems_Ok fdf table_columns table_columns_NoDup Hall)
        as (t & Ht & _).
      unfold raw_data in He. by rewrite Ht in He.
    + apply not_Forall_Exists in Hex; [|apply _].
      apply Exists_exists in Hex as (c & Hc & Hnone).
      exists c. split; [done|]. by apply eq_None_not_Some.
  - intros (c & Hc & Hnone). unfold raw_data, getitems.
    destruct (mapM_Err (λ c, s ← getitem fdf c; Ok (c, s)) table_columns c
                (KeyError c) Hc) as [e He].
    { unfold getitem. by rewrite Hnone. }
    exists e. by rewrite He.
Qed.
(** ** Frequency tables *)

#[local] Instance by_count_desc_total {A} : Total (@by_count_desc A).
Proof. intros a b. unfold by_count_desc. lia. Qed.

#[local] Instance by_count_desc_trans {A} : Transitive (@by_count_desc A).
Proof. intros a b c. unfold by_count_desc. lia. Qed.

Lemma sum_list_with_ext {A} (f g : A → nat) (l : list A) :
  (∀ x, x ∈ l → f x = g x) → sum_list_with f l = sum_list_with g l.
Proof.
  induction l as [|x l IH]; intros Hfg; [done|]. cbn [sum_list_with].
  rewrite (Hfg x) by apply list_elem_of_here.
  rewrite IH; [done|]. intros y Hy. by apply Hfg, list_elem_of_further.
Qed.

Lemma sum_list_with_add {A} (f g : A → nat) (l : list A) :
  sum_list_with (λ x, f x + g x) l = sum_list_with f l + sum_list_with g l.
Proof. induction l as [|x l IH]; cbn [sum_list_with]; lia. Qed.

Lemma sum_list_fmap_with {A} (f : A → nat) (l : list A) :
  sum_list (f <$> l) = sum_list_with f l.
Proof. induction l as [|x l IH]; cbn [fmap list_fmap sum_list_with]; by f_equal. Qed.

Lemma sum_list_with_indicator (a : cell) (vs : Series) :
  NoDup vs → a ∈ vs →
  sum_list_with (λ v, if decide (a = v) then 1 else 0) vs = 1.
Proof.
  induction 1 as [|v vs Hnotin Hnd IH]; intros Ha;
    [by apply elem_of_nil in Ha|].
  cbn [sum_list_with]. apply elem_of_cons in Ha as [->|Ha].
  - rewrite decide_True by done.
    rewrite (sum_list_with_ext _ (λ _, 0)).
    + clear. induction vs; cbn [sum_list_with]; lia.
    + intros x Hx. rewrite decide_False; [done|]. by intros ->.
  - rewrite decide_False by (by intros ->). by rewrite IH.
Qed.

(** The counts of the distinct values add up to the length of the column. *)
Lemma sum_count_of (vs l : Series) :
  NoDup vs → (∀ x, x ∈ l → x ∈ vs) →
  sum_list_with (λ v, count_of v l) vs = length l.
Proof.
  intros Hnd. induction l as [|a l IH]; intros Hin.
  - unfold count_of. clear. induction vs; cbn [sum_list_with]; [done|].
    by rewrite IHvs.
  - rewrite (sum_list_with_ext _
      (λ v, (if decide (a = v) then 1 else 0) + count_of v l)).
    2: { intros v _. unfold count_of. rewrite filter_cons.
         by destruct (decide (a = v)). }
    rewrite sum_list_with_add, sum_list_with_indicator, IH; [done|..].
    + intros x Hx. by apply Hin, list_elem_of_further.
    + done.
    + apply Hin, list_elem_of_here.
Qed.

Lemma count_of_dropna v (s : Series) :
  v ≠ CNaN → count_of v (dropna s) = count_of v s.
Proof.
  intros Hv. unfold count_of, dropna. induction s as [|x s IH]; [done|].
  rewrite !filter_cons.
  destruct (decide (x ≠ CNaN)) as [Hx|Hx]; rewrite ?filter_cons;
    destruct (decide (x = v)) as [->|Hxv]; cbn [length]; try done;
    by rewrite IH.
Qed.

Lemma count_of_pos v (s : Series) : v ∈ s → 1 ≤ count_of v s.
Proof.
  intros Hv. unfold count_of.
  assert (v ∈ filter (λ x, x = v) s) as Hin.
  { by apply list_elem_of_filter. }
  destruct (filter (λ x, x = v) s); [by apply elem_of_nil in Hin|].
  cbn [length]. lia.
Qed.

Lemma value_counts_Permutation (s : Series) :
  value_counts s ≡ₚ (λ v, (v, count_of v s)) <$> unique (dropna s).
Proof. apply merge_sort_Permutation. Qed.

Lemma value_counts_elem (s : Series) v n :
  (v, n) ∈ value_counts s ↔ v ∈ s ∧ v ≠ CNaN ∧ n = count_of v s.
Proof.
  rewrite value_counts_Permutation, list_elem_of_fmap. unfold unique, dropna.
  split.
  - intros (v' & [= -> ->] & Hin).
    apply elem_of_unique_from in Hin as [Hin _].
    apply list_elem_of_filter in Hin. tauto.
  - intros (Hin & Hv & ->). exists v. split; [done|].
    apply elem_of_unique_from. split; [|apply not_elem_of_nil].
    by apply list_elem_of_filter.
Qed.

Lemma value_counts_sum (s : Series) :
  sum_list (value_counts s).*2 = length (dropna s).
Proof.
  rewrite value_counts_Permutation, <- list_fmap_compose.
  rewrite sum_list_fmap_with.
  rewrite (sum_list_with_ext _ (λ v, count_of v (dropna s))).
  - apply sum_count_of; [apply NoDup_unique_from|].
    intros x Hx. apply elem_of_unique_from. split; [done|].
    apply not_elem_of_nil.
  - intros v Hv. cbn. symmetry. apply count_of_dropna.
    apply elem_of_unique_from in Hv as [Hv _].
    by apply list_elem_of_filter in Hv as [? _].
Qed.

(** X19: a frequency table lists every distinct value of the column once,
    missing values left out, each with the number of cells that hold it, so
    every count is at least one; the counts never increase down the table
    and they add up to the number of cells that hold a value. *)
Theorem value_counts_lists_each_value_with_its_count (s : Series) :
  StronglySorted by_count_desc (value_counts s) ∧
  NoDup (value_counts s).*1 ∧
  (∀ v n, (v, n) ∈ value_counts s ↔
          v ∈ s ∧ v ≠ CNaN ∧ n = count_of v s) ∧
  (∀ v n, (v, n) ∈ value_counts s → 1 ≤ n) ∧
  sum_list (value_counts s).*2 = length (dropna s).
Proof.
  split; [apply StronglySorted_merge_sort; apply _|]. split.
  { rewrite value_counts_Permutation, <- list_fmap_compose.
    rewrite (list_fmap_ext _ id (unique (dropna s))) by done.
    rewrite list_fmap_id. apply NoDup_unique_from. }
  split; [apply value_counts_elem|]. split; [|apply value_counts_sum].
  intros v n (Hin & _ & ->)%value_counts_elem. by apply count_of_pos.
Qed.

(** X20: after a filter with a non-empty fur color selection the fur color
    chart names only selected colors: the frequency table of the view is
    returned, each of its values is one of the selected colors, and its
    counts add up to the number of rows of the view that hold a fur
    color. *)
Theorem color_counts_name_selected_colors_only (df fdf : DataFrame) c a s :
  wf df →
  apply_filters df c a s = Ok fdf →
  c ≠ [] →
  ∃ vals tbl, columns fdf !! "Primary_Fur_Color" = Some vals ∧
    color_counts fdf = Ok tbl ∧
    (∀ v n, (v, n) ∈ tbl → v ∈ c ∧ 1 ≤ n ≤ len fdf) ∧
    sum_list tbl.*2 = length (dropna vals) ∧
    sum_list tbl.*2 ≤ len fdf.
Proof.
  intros Hwf Hap Hne.
  assert (Hwf' : wf fdf) by (by eapply wf_apply_filters).
  apply apply_filters_Ok in Hap as (_ & Hc & _).
  destruct (Hc Hne) as (vals & Hvals & Hall).
  exists vals, (value_counts vals). split; [done|].
  unfold color_counts, getitem. rewrite Hvals, bind_Ok. split; [done|].
  assert (Hlen : length vals = len fdf) by (by apply (Hwf' _ _ Hvals)).
  split; [|split; [apply value_counts_sum|]].
  - intros v n (Hin & _ & ->)%value_counts_elem. split.
    + rewrite Forall_forall in Hall. by apply Hall.
    + split; [by apply count_of_pos|]. rewrite <- Hlen. unfold count_of.
      apply length_filter.
  - rewrite value_counts_sum, <- Hlen. unfold dropna. apply length_filter.
Qed.
End coverage.

(** * The model on concrete frames *)

Module Runs.
Import Examples.
#[local] Existing Instance decimal_model.

(** Scenario values of the two coercions. *)
Example flag_tokens_coerced :
  series_apply coerce_flag tokens =
  [CBool true; CBool true; CBool true; CBool false; CBool false; CBool false;
   CBool false; CBool false; CBool true; CBool false; CBool false].
Proof. compute_done. Qed.

Example coordinate_texts_coerced :
  coerce_coordinates [CStr "-73,9"; CStr "N/A"; CStr "40.78"; CNaN] =
  [CFloat {| mantissa := -739; scale := 1 |}; CNaN;
   CFloat {| mantissa := 4078; scale := 2 |}; CNaN].
Proof. compute_done. Qed.

Example sightings_loaded : load_data sightings = Ok census.
Proof. compute_done. Qed.

Example wf_sightings : wf sightings.
Proof. compute_done. Qed.

Example wf_census : wf census.
Proof. compute_done. Qed.

Example census_options :
  fur_colors census = Ok [CStr "Gray"; CStr "Black"] ∧
  ages census = Ok [CStr "Adult"; CStr "Juvenile"] ∧
  shifts census = Ok [CStr "AM"; CStr "PM"].
Proof. repeat split; compute_done. Qed.

Example census_counts :
  adult_count census = Ok 1 ∧ gray_count census = Ok 2 ∧
  eating_count census = Ok 1%Z.
Proof. repeat split; compute_done. Qed.

Example climbing_three_eating_ten :
  column_sums climbers ["Climbing"; "Eating"] = Ok [3%Z; 10%Z] ∧
  column_sums climbers ["Eating"; "Climbing"] = Ok [10%Z; 3%Z].
Proof. split; compute_done. Qed.

(** ** The loader *)

Lemma flag_true_iff_upper_is_TRUE_witness :
  ∃ s', columns census !! "Eating" = Some s' ∧
    length s' = length [CStr "true"; CStr "FALSE"; CNaN] ∧
    ∀ i x, [CStr "true"; CStr "FALSE"; CNaN] !! i = Some x →
      (upper (str x) = "TRUE" → s' !! i = Some (CBool true)) ∧
      (upper (str x) ≠ "TRUE" → s' !! i = Some (CBool false)).
Proof.
  apply (flag_true_iff_upper_is_TRUE sightings census "Eating");
    compute_done.
Defined.

Lemma coordinates_parsed_or_missing_witness :
  ∃ df', load_data sightings = Ok df' ∧
    ∀ col s, col = "X" ∨ col = "Y" → columns sightings !! col = Some s →
      ∃ s', columns df' !! col = Some s' ∧ length s' = length s ∧
        ∀ i x, s !! i = Some x →
          ∃ t, String.length t = String.length (str x) ∧
            (∀ k, String.get k t =
                  (λ a, if decide (a = ","%char) then "."%char else a)
                    <$> String.get k (str x)) ∧
            match float_parse t with
            | Some f => s' !! i = Some (CFloat f)
            | None => s' !! i = Some CNaN ∧ ∀ f, s' !! i ≠ Some (CFloat f)
            end.
Proof.
  apply (coordinates_parsed_or_missing sightings
           [CStr "-73,9"; CStr "N/A"; CStr "-73.97"]
           [CStr "40,78"; CNaN; CStr "40.79"]);
    compute_done.
Defined.

(** C5 as stated fails on a source without flag columns: the loader returns
    a one-row table in which the declared flag [Eating] is missing. *)
Lemma flag_missing_after_load :
  load_data no_flags = Ok no_flags_loaded ∧
  len no_flags_loaded = 1 ∧
  "Eating" ∈ bool_cols ∧
  ¬ ∃ s, columns no_flags_loaded !! "Eating" = Some s ∧
      Forall (λ x, x = CBool true ∨ x = CBool false) s.
Proof.
  split; [compute_done|]. split; [compute_done|]. split; [compute_done|].
  intros (s & Hs & _). revert Hs. compute_done.
Qed.

Lemma present_flags_are_boolean_witness :
  match columns census !! "Eating" with
  | Some s' =>
      is_Some (columns sightings !! "Eating") ∧
      Forall (λ x, x = CBool true ∨ x = CBool false) s'
  | None => columns sightings !! "Eating" = None
  end.
Proof.
  apply (present_flags_are_boolean sightings census "Eating"); compute_done.
Defined.

Lemma load_skips_missing_flag_columns_witness :
  ∃ df', load_data sightings = Ok df' ∧ index df' = index sightings ∧
    columns df' !! "Running" = None ∧
    columns df' !! "X" =
      Some (coerce_coordinates [CStr "-73,9"; CStr "N/A"; CStr "-73.97"]) ∧
    columns df' !! "Y" =
      Some (coerce_coordinates [CStr "40,78"; CNaN; CStr "40.79"]) ∧
    (∀ c, c ∈ bool_cols →
       columns df' !! c =
       series_apply coerce_flag <$> columns sightings !! c) ∧
    (∀ c, c ≠ "X" → c ≠ "Y" → c ∉ bool_cols →
       columns df' !! c = columns sightings !! c).
Proof.
  apply (load_skips_missing_flag_columns sightings _ _ "Running");
    compute_done.
Defined.

Lemma coercions_total_and_keep_rows_witness :
  ∃ df', load_data sightings = Ok df' ∧ index df' = index sightings ∧
    (∀ col s, columns sightings !! col = Some s →
       ∃ s', columns df' !! col = Some s' ∧ length s' = length s) ∧
    (∀ col s i x, col = "X" ∨ col = "Y" →
       columns sightings !! col = Some s → s !! i = Some x →
       float_parse (str_replace "," "." (str x)) = None →
       ∃ s', columns df' !! col = Some s' ∧ s' !! i = Some CNaN) ∧
    (∀ col s i x, col ∈ bool_cols →
       columns sightings !! col = Some s → s !! i = Some x →
       upper (str x) ≠ "TRUE" →
       ∃ s', columns df' !! col = Some s' ∧ s' !! i = Some (CBool false)).
Proof.
  apply (coercions_total_and_keep_rows sightings
           [CStr "-73,9"; CStr "N/A"; CStr "-73.97"]
           [CStr "40,78"; CNaN; CStr "40.79"]);
    compute_done.
Defined.

(** ** Options and filters *)

Lemma options_distinct_first_seen_witness :
  ∃ vs, options census "Primary_Fur_Color" = Ok vs ∧
    NoDup vs ∧
    (∀ x, x ∈ vs ↔ x ∈ [CStr "Gray"; CStr "Gray"; CStr "Black"] ∧ x ≠ CNaN) ∧
    ∀ i j x y, vs !! i = Some x → vs !! j = Some y → i < j →
      ∃ s1 s2, [CStr "Gray"; CStr "Gray"; CStr "Black"] = s1 ++ x :: s2 ∧
        y ∉ s1.
Proof.
  apply (options_distinct_first_seen census "Primary_Fur_Color").
  compute_done.
Defined.

(** C1 as stated fails: with the age selection empty and the other two
    selections full, the filter block returns the whole three-row table. *)
Lemma empty_age_selection_keeps_all_rows :
  apply_filters census [CStr "Gray"; CStr "Black"] []
    [CStr "AM"; CStr "PM"] = Ok census ∧
  len census = 3.
Proof. split; compute_done. Qed.

Lemma empty_selection_is_unconstrained_witness :
  (∃ mask,
     apply_filters census [CStr "Gray"; CStr "Black"] []
       [CStr "AM"; CStr "PM"] = Ok (select census mask) ∧
     length mask = len census ∧
     ∀ i x y z,
       [CStr "Gray"; CStr "Gray"; CStr "Black"] !! i = Some x →
       [CStr "Adult"; CNaN; CStr "Juvenile"] !! i = Some y →
       [CStr "AM"; CStr "PM"; CStr "AM"] !! i = Some z →
       mask !! i =
       Some (bool_decide
               (([CStr "Gray"; CStr "Black"] = [] ∨
                 x ∈ [CStr "Gray"; CStr "Black"]) ∧
                (@nil cell = [] ∨ y ∈ @nil cell) ∧
                ([CStr "AM"; CStr "PM"] = [] ∨
                 z ∈ [CStr "AM"; CStr "PM"])))) ∧
  apply_filters census [] [] [] = Ok census.
Proof.
  apply (empty_selection_is_unconstrained census); compute_done.
Defined.

(** C2 as stated fails: with the three selections set to the full option
    lists, the row without a recorded age is dropped. *)
Lemma full_selection_drops_row_without_age :
  fur_colors census = Ok [CStr "Gray"; CStr "Black"] ∧
  ages census = Ok [CStr "Adult"; CStr "Juvenile"] ∧
  shifts census = Ok [CStr "AM"; CStr "PM"] ∧
  apply_filters census [CStr "Gray"; CStr "Black"]
    [CStr "Adult"; CStr "Juvenile"] [CStr "AM"; CStr "PM"] =
  Ok census_with_age ∧
  len census_with_age = 2 ∧
  len census = 3 ∧
  census_with_age ≠ census.
Proof. repeat split; compute_done. Qed.

Lemma full_selection_keeps_rows_without_null_witness :
  ∃ co ao so mask,
    fur_colors census = Ok co ∧
    ages census = Ok ao ∧
    shifts census = Ok so ∧
    apply_filters census co ao so = Ok (select census mask) ∧
    length mask = len census ∧
    (∀ i x y z,
       [CStr "Gray"; CStr "Gray"; CStr "Black"] !! i = Some x →
       [CStr "Adult"; CNaN; CStr "Juvenile"] !! i = Some y →
       [CStr "AM"; CStr "PM"; CStr "AM"] !! i = Some z →
       mask !! i =
       Some (bool_decide ((co = [] ∨ x ≠ CNaN) ∧ (ao = [] ∨ y ≠ CNaN) ∧
                          (so = [] ∨ z ≠ CNaN)))) ∧
    (CNaN ∉ [CStr "Gray"; CStr "Gray"; CStr "Black"] →
     CNaN ∉ [CStr "Adult"; CNaN; CStr "Juvenile"] →
     CNaN ∉ [CStr "AM"; CStr "PM"; CStr "AM"] →
     apply_filters census co ao so = Ok census).
Proof.
  apply (full_selection_keeps_rows_without_null census); compute_done.
Defined.

(** ** Counts and sums *)

Lemma null_rows_are_never_counted_witness :
  ∃ n, count_where_equals census "Age" "Adult" = Ok n ∧
    n = length (filter (λ x, x = CStr "Adult")
                  [CStr "Adult"; CNaN; CStr "Juvenile"]) ∧
    n + length (filter (λ x, x = CNaN)
                  [CStr "Adult"; CNaN; CStr "Juvenile"]) ≤ len census ∧
    (∀ i, [CStr "Adult"; CNaN; CStr "Juvenile"] !! i = Some CNaN →
       eq_str "Adult" [CStr "Adult"; CNaN; CStr "Juvenile"] !! i =
       Some false) ∧
    ("Age" = "Age" → "Adult" = "Adult" → adult_count census = Ok n) ∧
    ("Age" = "Primary_Fur_Color" → "Adult" = "Gray" →
     gray_count census = Ok n).
Proof.
  apply (null_rows_are_never_counted census census [] [] [] "Age" "Adult");
    compute_done.
Defined.

Lemma column_sums_follow_field_order_witness :
  ∃ res, column_sums climbers ["Climbing"; "Eating"] = Ok res ∧
    length res = length ["Climbing"; "Eating"] ∧
    ∀ i c, ["Climbing"; "Eating"] !! i = Some c →
      ∃ s, columns climbers !! c = Some s ∧
        res !! i =
        Some (Z.of_nat (length (filter (λ x, x = CBool true) s))).
Proof.
  apply (column_sums_follow_field_order climbers ["Climbing"; "Eating"]).
  intros c Hc.
  apply elem_of_cons in Hc as [-> | Hc];
    [|apply elem_of_cons in Hc as [-> | Hc]; [|by apply elem_of_nil in Hc]].
  - exists (replicate 3 (CBool true) ++ replicate 9 (CBool false)).
    split; compute_done.
  - exists (replicate 10 (CBool true) ++ replicate 2 (CBool false)).
    split; compute_done.
Defined.
End Runs.

(** * The further properties on concrete frames *)

Module MoreRuns.
Import Examples MoreExamples.
#[local] Existing Instance decimal_model.

Example census_map_rows :
  map_df census = Ok census_on_map ∧ has_location_data census = Ok true.
Proof. split; compute_done. Qed.

Example fur_color_frequencies :
  value_counts [CStr "Gray"; CStr "Black"; CNaN; CStr "Gray"] =
  [(CStr "Gray", 2); (CStr "Black", 1)] ∧
  color_counts census = Ok [(CStr "Gray", 2); (CStr "Black", 1)] ∧
  shift_counts census = Ok [(CStr "AM", 2); (CStr "PM", 1)].
Proof. repeat split; compute_done. Qed.

Example roster_table :
  raw_data roster = Ok roster_shown ∧
  raw_data census = Err (KeyError "Unique_Squirrel_ID").
Proof. split; compute_done. Qed.

Example census_sums_fail :
  activity_counts census = Err (KeyError "Running") ∧
  vocal_counts census = Err (KeyError "Kuks") ∧
  interaction_counts census = Err (KeyError "Approaches").
Proof. repeat split; compute_done. Qed.

(** ** The loader *)

Lemma load_data_keeps_rows_and_column_names_witness :
  index census = index sightings ∧
  dom (columns census) = dom (columns sightings) ∧
  ∀ c, c ≠ "X" → c ≠ "Y" → c ∉ bool_cols →
    columns census !! c = columns sightings !! c.
Proof.
  apply (load_data_keeps_rows_and_column_names sightings census).
  compute_done.
Defined.

Lemma load_data_fixes_loaded_tables_witness : load_data census = Ok census.
Proof.
  apply (load_data_fixes_loaded_tables census census_xs census_ys);
    [compute_done | compute_done | compute_done | | |].
  - unfold census_xs.
    repeat (apply Forall_cons; split;
      [first [by left | right; eexists; split; [reflexivity|compute_done]]|]).
    apply Forall_nil_2.
  - unfold census_ys.
    repeat (apply Forall_cons; split;
      [first [by left | right; eexists; split; [reflexivity|compute_done]]|]).
    apply Forall_nil_2.
  - intros c s Hc Hs.
    assert (Hcases : ∀ c, c ∈ bool_cols →
      columns census !! c = None ∨
      columns census !! c = Some [CBool true; CBool false; CBool false] ∨
      columns census !! c = Some [CBool true; CBool false; CBool true]).
    { intros c' Hc'. repeat (apply elem_of_cons in Hc' as [-> | Hc']);
        [first [ left; compute_done | right; left; compute_done
               | right; right; compute_done ]..
        | by apply elem_of_nil in Hc']. }
    destruct (Hcases c Hc) as [Hn|[Hv|Hv]]; rewrite Hs in *;
      [done | injection Hv as -> | injection Hv as ->];
      repeat (apply Forall_cons; split; [first [by left | by right]|]);
      apply Forall_nil_2.
Defined.

(** ** The filter block *)

Lemma filtered_rows_hold_selected_values_witness :
  ([CStr "Gray"; CStr "Black"] ≠ [] →
   ∃ vals, columns census_with_age !! "Primary_Fur_Color" = Some vals ∧
     Forall (λ x, x ∈ [CStr "Gray"; CStr "Black"]) vals) ∧
  ([CStr "Adult"; CStr "Juvenile"] ≠ [] →
   ∃ vals, columns census_with_age !! "Age" = Some vals ∧
     Forall (λ x, x ∈ [CStr "Adult"; CStr "Juvenile"]) vals) ∧
  ([CStr "AM"; CStr "PM"] ≠ [] →
   ∃ vals, columns census_with_age !! "Shift" = Some vals ∧
     Forall (λ x, x ∈ [CStr "AM"; CStr "PM"]) vals).
Proof.
  apply (filtered_rows_hold_selected_values census census_with_age).
  compute_done.
Defined.

Lemma filtered_view_is_part_of_the_table_witness :
  index census_with_age `sublist_of` index census ∧
  len census_with_age ≤ len census ∧
  dom (columns census_with_age) = dom (columns census) ∧
  ∀ col vals, columns census !! col = Some vals →
    ∃ vals', columns census_with_age !! col = Some vals' ∧
      vals' `sublist_of` vals.
Proof.
  apply (filtered_view_is_part_of_the_table census census_with_age
           [CStr "Gray"; CStr "Black"] [CStr "Adult"; CStr "Juvenile"]
           [CStr "AM"; CStr "PM"]).
  compute_done.
Defined.

Lemma filter_steps_commute_witness :
  filter_isin census "Age" [CStr "Adult"]
    ≫= (λ d, filter_isin d "Shift" [CStr "AM"]) =
  filter_isin census "Shift" [CStr "AM"]
    ≫= (λ d, filter_isin d "Age" [CStr "Adult"]).
Proof.
  apply (filter_steps_commute census "Age" "Shift" [CStr "Adult"]
           [CStr "AM"] [CStr "Adult"; CNaN; CStr "Juvenile"]
           [CStr "AM"; CStr "PM"; CStr "AM"]);
    compute_done.
Defined.

Lemma filtering_twice_changes_nothing_witness :
  apply_filters census_with_age [CStr "Gray"; CStr "Black"]
    [CStr "Adult"; CStr "Juvenile"] [CStr "AM"; CStr "PM"] =
  Ok census_with_age.
Proof.
  apply (filtering_twice_changes_nothing census); compute_done.
Defined.

Lemma selection_order_and_repeats_do_not_matter_witness :
  apply_filters census [CStr "Gray"; CStr "Black"] [CStr "Adult"] [] =
  apply_filters census [CStr "Black"; CStr "Gray"; CStr "Gray"]
    [CStr "Adult"; CStr "Adult"] [].
Proof.
  apply (selection_order_and_repeats_do_not_matter census);
    intros x; split; intros Hx;
    repeat (apply elem_of_cons in Hx as [-> | Hx]);
    first [by apply elem_of_nil in Hx | compute_done].
Defined.

(** ** Counts, sums, map, table and frequencies *)

Lemma adult_count_follows_age_selection_witness :
  adult_count census_juveniles = Ok 0 ∧
  adult_count census_adults = Ok (len census_adults) ∧
  len census_adults = 1.
Proof.
  split; [|split; [|compute_done]].
  - apply (adult_count_follows_age_selection census census_juveniles
             [] [CStr "Juvenile"] []);
      [compute_done | compute_done | compute_done |].
    intros Hin. apply elem_of_cons in Hin as [[=]|Hin].
    by apply elem_of_nil in Hin.
  - apply (adult_count_follows_age_selection census census_adults
             [] [CStr "Adult"] []);
      [compute_done | compute_done | compute_done |].
    intros x Hx. apply elem_of_cons in Hx as [->|Hx]; [done|].
    by apply elem_of_nil in Hx.
Defined.

Lemma flag_sums_are_bounded_by_the_row_count_witness :
  ∃ res, column_sums census_with_age ["Climbing"; "Eating"] = Ok res ∧
    length res = length ["Climbing"; "Eating"] ∧
    Forall (λ n, (0 ≤ n ≤ Z.of_nat (len census_with_age))%Z) res.
Proof.
  apply (flag_sums_are_bounded_by_the_row_count sightings census
           census_with_age [CStr "Gray"; CStr "Black"]
           [CStr "Adult"; CStr "Juvenile"] [CStr "AM"; CStr "PM"]);
    [compute_done | compute_done | compute_done |].
  intros col Hcol.
  repeat (apply elem_of_cons in Hcol as [-> | Hcol]);
    [split; compute_done.. | by apply elem_of_nil in Hcol].
Defined.

Lemma sums_fail_on_a_flag_missing_from_the_source_witness :
  sum_column census_with_age "Running" = Err (KeyError "Running") ∧
  ("Running" = "Eating" →
   eating_count census_with_age = Err (KeyError "Eating")) ∧
  ∀ cols, "Running" ∈ cols → ∃ e, column_sums census_with_age cols = Err e.
Proof.
  apply (sums_fail_on_a_flag_missing_from_the_source sightings census
           census_with_age [CStr "Gray"; CStr "Black"]
           [CStr "Adult"; CStr "Juvenile"] [CStr "AM"; CStr "PM"]);
    compute_done.
Defined.

Lemma map_rows_hold_both_coordinates_witness :
  ∃ mask xs' ys', map_df census = Ok (select census mask) ∧
    length mask = len census ∧
    (∀ i x y, census_xs !! i = Some x → census_ys !! i = Some y →
       mask !! i = Some (bool_decide (x ≠ CNaN ∧ y ≠ CNaN))) ∧
    columns (select census mask) !! "X" = Some xs' ∧ (CNaN ∉ xs') ∧
    columns (select census mask) !! "Y" = Some ys' ∧ (CNaN ∉ ys') ∧
    index (select census mask) `sublist_of` index census ∧
    len (select census mask) =
    length (filter (λ p, p.1 ≠ CNaN ∧ p.2 ≠ CNaN)
              (zip census_xs census_ys)).
Proof.
  apply (map_rows_hold_both_coordinates census census_xs census_ys);
    compute_done.
Defined.

Lemma no_location_data_exactly_without_positions_witness :
  ∃ b, has_location_data census = Ok b ∧
    (b = false ↔
     ∀ i x y,
       census_xs !! i = Some x → census_ys !! i = Some y →
       x = CNaN ∨ y = CNaN).
Proof.
  apply (no_location_data_exactly_without_positions census census_xs
           census_ys);
    compute_done.
Defined.

Lemma raw_data_shows_the_first_hundred_rows_witness :
  ∃ t, raw_data roster = Ok t ∧
    index t = take 100 (index roster) ∧
    len t = min 100 (len roster) ∧
    dom (columns t) = list_to_set table_columns ∧
    (∀ c, c ∈ table_columns →
       columns t !! c = take 100 <$> columns roster !! c) ∧
    (wf roster → len roster ≤ 100 →
     index t = index roster ∧
     ∀ c, c ∈ table_columns → columns t !! c = columns roster !! c).
Proof.
  apply (raw_data_shows_the_first_hundred_rows roster).
  intros c Hc.
  repeat (apply elem_of_cons in Hc as [-> | Hc]);
    [compute_done.. | by apply elem_of_nil in Hc].
Defined.

Lemma color_counts_name_selected_colors_only_witness :
  ∃ vals tbl,
    columns census_with_age !! "Primary_Fur_Color" = Some vals ∧
    color_counts census_with_age = Ok tbl ∧
    (∀ v n, (v, n) ∈ tbl →
       v ∈ [CStr "Gray"; CStr "Black"] ∧ 1 ≤ n ≤ len census_with_age) ∧
    sum_list tbl.*2 = length (dropna vals) ∧
    sum_list tbl.*2 ≤ len census_with_age.
Proof.
  apply (color_counts_name_selected_colors_only census census_with_age
           [CStr "Gray"; CStr "Black"] [CStr "Adult"; CStr "Juvenile"]
           [CStr "AM"; CStr "PM"]);
    compute_done.
Defined.
End MoreRuns.
